(** * cekresi: the bulk parcel tracker of [PosTrackingSystem]

    A shallow embedding of the React component found in
    [src/components/PosTrackingSystem.tsx] and of the page version of the
    same component in [src/unnamed/part_000].  The two files share
    [trackResi], [processResi], [trackSingleResi] and the counters word for
    word; they differ in [exportToExcel] only, which is therefore embedded
    twice (modules [Component] and [Page]).

    JavaScript strings are modelled by [string], that is by sequences of
    code units below 256.  Asynchronous code is written in a small state
    monad over the component's state; the monad also records every
    observable effect (state setter, alert, request, pause) in a
    chronological event log, so that statements about "every instant" are
    statements about the log.  An [await] is one step of the monad: an
    operation runs from its start to its end.  The run of a submission is
    thus the batch run that no click interleaves with; where a click during
    a batch matters, its handler is run from the state the loop has reached
    at an [await].  What is proved of the updaters alone holds of whatever
    collection they are applied to, hence under any interleaving. *)

From Stdlib Require Import String Ascii List ZArith NArith Bool Lia Arith.
From Stdlib Require Import DecimalString.
Import ListNotations.
Local Open Scope string_scope.
Local Open Scope list_scope.

(** ** Strings as the code uses them *)

Module Js.

(** Code units that [String.prototype.trim] removes (white space and line
    terminators below 256): TAB, LF, VT, FF, CR, SP and NBSP. *)
Definition isWhite (c : ascii) : bool :=
  let n := nat_of_ascii c in
  ((9 <=? n)%nat && (n <=? 13)%nat) || (n =? 32)%nat || (n =? 160)%nat.

Fixpoint trimStart (s : string) : string :=
  match s with
  | EmptyString => EmptyString
  | String c s' => if isWhite c then trimStart s' else s
  end.

Fixpoint trimEnd (s : string) : string :=
  match s with
  | EmptyString => EmptyString
  | String c s' =>
      match trimEnd s' with
      | EmptyString => if isWhite c then EmptyString else String c EmptyString
      | t => String c t
      end
  end.

Definition trim (s : string) : string := trimEnd (trimStart s).

(** [s.startsWith(p)] *)
Definition startsWith (p s : string) : bool := String.prefix p s.

(** The character class of the separator regular expression [/[\n,]+/]. *)
Definition isSep (c : ascii) : bool :=
  (nat_of_ascii c =? 10)%nat || (nat_of_ascii c =? 44)%nat.

(** [s.split(/[\n,]+/)]: the pieces of [s] between maximal runs of
    separators.  A leading run leaves an empty first piece, a trailing run
    an empty last piece, and the empty string splits into one empty piece.
    [inRun] tells that the previous code unit was a separator. *)
Fixpoint splitFrom (inRun : bool) (s : string) : list string :=
  match s with
  | EmptyString => [EmptyString]
  | String c s' =>
      if isSep c then
        if inRun then splitFrom true s' else EmptyString :: splitFrom true s'
      else
        match splitFrom false s' with
        | t :: ts => String c t :: ts
        | [] => [String c EmptyString]
        end
  end.

Definition split (s : string) : list string := splitFrom false s.

(** Truthiness of a string: only the empty string is falsy. *)
Definition truthy (s : string) : bool :=
  match s with EmptyString => false | _ => true end.

(** [a || b] on strings. *)
Definition orElse (a b : string) : string := if truthy a then a else b.

(** Truthiness of [string | null] and of [string | undefined]. *)
Definition truthyOpt (o : option string) : bool :=
  match o with Some s => truthy s | None => false end.

Definition nl : string := String (ascii_of_nat 10) EmptyString.

(** Decimal rendering of a non-negative integer in a template string. *)
Definition showN (n : N) : string := NilZero.string_of_uint (N.to_uint n).

End Js.

(** ** Data model *)

Record TrackingHistory := mkHistory {
  h_date : string;
  h_desc : string;
  h_location : string
}.

Record Summary := mkSummary {
  awb : string;
  courier : string;
  service : string;
  s_status : string;
  s_date : string;
  s_desc : string;
  amount : string;
  weight : string
}.

Record Detail := mkDetail {
  origin : string;
  destination : string;
  shipper : string;
  receiver : string
}.

Record Shipment := mkShipment {
  summary : Summary;
  detail : Detail;
  history : list TrackingHistory
}.

(** [TrackingData].  The interface declares the field [data] as present, but
    the code tests it ([item.data?.data]) before use, so it is optional
    here. *)
Record TrackingData := mkTrackingData {
  status : Z;
  message : string;
  data : option Shipment
}.

Record ResiItem := mkResiItem {
  resi : string;
  r_data : option TrackingData;
  loading : bool;
  error : option string;
  lastUpdated : option string
}.

(** ** The remote service *)

(** A thrown value: an [Error] carrying a message, or anything else. *)
Inductive Thrown :=
| ThrownError (msg : string)
| ThrownOther.

(** What [await response.json()] gives: a body of the declared shape, or an
    exception. *)
Inductive JsonOutcome :=
| JsonValue (body : TrackingData)
| JsonThrows (t : Thrown).

(** What [await fetch(url)] gives: a rejection, or a response with its HTTP
    status and its body. *)
Inductive FetchOutcome :=
| FetchRejects (t : Thrown)
| FetchResponse (httpStatus : N) (body : JsonOutcome).

(** [response.ok] *)
Definition responseOk (httpStatus : N) : bool :=
  ((200 <=? httpStatus) && (httpStatus <=? 299))%N.

(** ** Component state and observable effects *)

Inductive Event :=
| EvAlert (msg : string)
| EvSetResiList (l : list ResiItem)
| EvSetIsTracking (b : bool)
| EvFetch (url : string)
| EvConsoleError (msg : string) (t : Thrown)
| EvDelay (ms : Z).

(** The state hooks of the component and the chronological log of its
    effects.  [EvSetResiList l] records the collection right after a setter
    ran, so the log holds the collection at every instant it changed. *)
Record World := mkWorld {
  resiNumbers : string;
  resiList : list ResiItem;
  isTracking : bool;
  events : list Event
}.

Definition M (A : Type) : Type := World -> A * World.

Definition ret {A : Type} (a : A) : M A := fun w => (a, w).

Definition bind {A B : Type} (m : M A) (k : A -> M B) : M B :=
  fun w => let (a, w') := m w in k a w'.

Declare Scope tracker_scope.
Delimit Scope tracker_scope with tracker.
Notation "x <- m ;; k" := (bind m (fun x => k))
  (at level 61, m at next level, right associativity) : tracker_scope.
Notation "m ;; k" := (bind m (fun _ => k))
  (at level 61, right associativity) : tracker_scope.
Local Open Scope tracker_scope.

Definition emit (e : Event) : M unit :=
  fun w => (tt, mkWorld (resiNumbers w) (resiList w) (isTracking w)
                        (events w ++ [e])).

Definition getResiNumbers : M string := fun w => (resiNumbers w, w).

(** [setResiList(prev => f(prev))] *)
Definition setResiList (f : list ResiItem -> list ResiItem) : M unit :=
  fun w => let l := f (resiList w) in
           (tt, mkWorld (resiNumbers w) l (isTracking w)
                        (events w ++ [EvSetResiList l])).

Definition setIsTracking (b : bool) : M unit :=
  fun w => (tt, mkWorld (resiNumbers w) (resiList w) b
                        (events w ++ [EvSetIsTracking b])).

Definition alert (msg : string) : M unit := emit (EvAlert msg).

Definition consoleError (msg : string) (t : Thrown) : M unit :=
  emit (EvConsoleError msg t).

(** [await new Promise(resolve => setTimeout(resolve, ms))] *)
Definition awaitDelay (ms : Z) : M unit := emit (EvDelay ms).

(** ** Pure parts of the component *)

(** Lines 87-90: split, trim, keep the non-empty tokens starting with P. *)
Definition validResi (r : string) : bool :=
  (0 <? String.length r)%nat && Js.startsWith "P" r.

Definition parseResi (text : string) : list string :=
  filter validResi (map Js.trim (Js.split text)).

(** Lines 97-103. *)
Definition freshItem (r : string) : ResiItem :=
  mkResiItem r None false None None.

(** The three updaters handed to [setResiList].  In [storeData] and
    [storeError] the callback reads [new Date().toISOString()] for each
    record it rewrites; [ts] is that reading.  The clock of the model tells
    the time by the number of events logged, and an update logs none while
    it runs, so that all the records one update rewrites get one and the same
    [ts].  Two records repeating an identifier, which the program may stamp
    a tick apart, carry equal [lastUpdated] here; nothing below is stated of
    the value of a stamp. *)
Definition markLoading (r : string) (prev : list ResiItem) : list ResiItem :=
  map (fun item =>
         if String.eqb (resi item) r
         then mkResiItem (resi item) (r_data item) true None (lastUpdated item)
         else item) prev.

Definition storeData (r : string) (d : TrackingData) (ts : string)
  (prev : list ResiItem) : list ResiItem :=
  map (fun item =>
         if String.eqb (resi item) r
         then mkResiItem (resi item) (Some d) false None (Some ts)
         else item) prev.

Definition storeError (r : string) (msg : string) (ts : string)
  (prev : list ResiItem) : list ResiItem :=
  map (fun item =>
         if String.eqb (resi item) r
         then mkResiItem (resi item) None false (Some msg) (Some ts)
         else item) prev.

(** [error instanceof Error ? error.message : 'Gagal mengambil data'] *)
Definition errorMessage (t : Thrown) : string :=
  match t with
  | ThrownError msg => msg
  | ThrownOther => "Gagal mengambil data"
  end.

(** Lines 63-73 of [trackResi]: what becomes of a response. *)
Definition readResponse (resp : FetchOutcome) : Thrown + TrackingData :=
  match resp with
  | FetchRejects t => inl t
  | FetchResponse httpStatus body =>
      if negb (responseOk httpStatus)
      then inl (ThrownError ("HTTP error! status: " ++ Js.showN httpStatus))
      else
        match body with
        | JsonThrows t => inl t
        | JsonValue d =>
            if negb (status d =? 200)%Z && negb (status d =? 201)%Z
            then inl (ThrownError
                        (Js.orElse (message d) "Gagal mengambil data tracking"))
            else inr d
        end
  end.

(** Counters of lines 238-239. *)
Definition isSuccessful (item : ResiItem) : bool :=
  match r_data item with
  | Some d => (status d =? 200)%Z
  | None => false
  end.

Definition isFailed (item : ResiItem) : bool :=
  match r_data item with
  | Some d => negb (status d =? 200)%Z
  | None => true
  end || Js.truthyOpt (error item).

Definition successfulTrackings (l : list ResiItem) : nat :=
  length (filter isSuccessful l).

Definition failedTrackings (l : list ResiItem) : nat :=
  length (filter isFailed l).

(** [getLatestHistory] *)
Definition getLatestHistory (item : ResiItem) : option TrackingHistory :=
  match r_data item with
  | Some d =>
      match data d with
      | Some sh => match history sh with h :: _ => Some h | [] => None end
      | None => None
      end
  | None => None
  end.

(** The three panels of a record's card: the error panel ([item.error]), the
    result panel ([item.data && item.data.status === 200 && item.data.data])
    and the not-found panel ([item.data && item.data.status !== 200]). *)
Definition showsErrorPanel (item : ResiItem) : bool :=
  Js.truthyOpt (error item).

Definition showsResultPanel (item : ResiItem) : bool :=
  match r_data item with
  | Some d =>
      (status d =? 200)%Z && match data d with Some _ => true | None => false end
  | None => false
  end.

Definition showsNotFoundPanel (item : ResiItem) : bool :=
  match r_data item with
  | Some d => negb (status d =? 200)%Z
  | None => false
  end.

(** ** Export *)

(** A row handed to [XLSX.utils.json_to_sheet]: its cells by column name, in
    the order the object literal lists them. *)
Definition Row : Type := list (string * string).

(** [item.error || 'Data tidak ditemukan'] *)
Definition errorCell (item : ResiItem) : string :=
  match error item with
  | Some e => Js.orElse e "Data tidak ditemukan"
  | None => "Data tidak ditemukan"
  end.

(** The shipment of a record that passes the test of line 198, that is for
    which [!item.data?.data || item.data.status !== 200] is false. *)
Definition exportable (item : ResiItem) : option Shipment :=
  match r_data item with
  | Some d =>
      match data d with
      | Some sh => if negb (status d =? 200)%Z then None else Some sh
      | None => None
      end
  | None => None
  end.

Definition latestDesc (sh : Shipment) : string :=
  match history sh with
  | h :: _ => h_desc h
  | [] => "-"
  end.

(** [exportToExcel] of [src/components/PosTrackingSystem.tsx]. *)
Module Component.

Definition exportRow (item : ResiItem) : Row :=
  match exportable item with
  | None =>
      [ ("No Resi", resi item);
        ("Penerima", "-");
        ("Status Terakhir", "-");
        ("Pesan Error", errorCell item) ]
  | Some sh =>
      [ ("No Resi", resi item);
        ("Penerima", receiver (detail sh));
        ("Status Terakhir", latestDesc sh);
        ("Pesan Error", "") ]
  end.

(** The array [data] that becomes the sheet 'Tracking POS'. *)
Definition exportToExcel (l : list ResiItem) : list Row := map exportRow l.

End Component.

(** [exportToExcel] of [src/unnamed/part_000]. *)
Module Page.

Definition exportRow (item : ResiItem) : Row :=
  match exportable item with
  | None =>
      [ ("No Resi", resi item);
        ("Status", "ERROR");
        ("Layanan", "-");
        ("Tanggal", "-");
        ("Pengirim", "-");
        ("Penerima", "-");
        ("Status Terakhir", "-");
        ("Pesan Error", errorCell item) ]
  | Some sh =>
      [ ("No Resi", resi item);
        ("Status", s_status (summary sh));
        ("Layanan", service (summary sh));
        ("Tanggal", s_date (summary sh));
        ("Pengirim", shipper (detail sh));
        ("Penerima", receiver (detail sh));
        ("Status Terakhir", latestDesc sh);
        ("Pesan Error", "") ]
  end.

Definition exportToExcel (l : list ResiItem) : list Row := map exportRow l.

End Page.

(** The cell of a row under a column name. *)
Fixpoint cell (col : string) (row : Row) : option string :=
  match row with
  | [] => None
  | (k, v) :: row' => if String.eqb k col then Some v else cell col row'
  end.

(** ** Reading the log *)

(** The collections the log shows, oldest first. *)
Fixpoint snapshots (evs : list Event) : list (list ResiItem) :=
  match evs with
  | [] => []
  | EvSetResiList l :: evs' => l :: snapshots evs'
  | _ :: evs' => snapshots evs'
  end.

(** The requests the log shows. *)
Fixpoint fetches (evs : list Event) : list string :=
  match evs with
  | [] => []
  | EvFetch url :: evs' => url :: fetches evs'
  | _ :: evs' => fetches evs'
  end.

(** The values given to [setIsTracking]. *)
Fixpoint flagWrites (evs : list Event) : list bool :=
  match evs with
  | [] => []
  | EvSetIsTracking b :: evs' => b :: flagWrites evs'
  | _ :: evs' => flagWrites evs'
  end.

(** Requests and pauses only, in order. *)
Fixpoint pacing (evs : list Event) : list Event :=
  match evs with
  | [] => []
  | EvFetch url :: evs' => EvFetch url :: pacing evs'
  | EvDelay ms :: evs' => EvDelay ms :: pacing evs'
  | _ :: evs' => pacing evs'
  end.

Fixpoint delays (evs : list Event) : list Z :=
  match evs with
  | [] => []
  | EvDelay ms :: evs' => ms :: delays evs'
  | _ :: evs' => delays evs'
  end.

Definition inProgress (l : list ResiItem) : list ResiItem := filter loading l.

(** Payload and error of a record are not both set. *)
Definition notBoth (item : ResiItem) : Prop :=
  r_data item = None \/ error item = None.

(** Exactly one of payload and error is set. *)
Definition exactlyOne (item : ResiItem) : Prop :=
  (exists d, r_data item = Some d /\ error item = None) \/
  (exists msg, r_data item = None /\ error item = Some msg).

(** The events logged between two states of one run. *)
Definition newEvents (w w' : World) : list Event :=
  skipn (length (events w)) (events w').

Fixpoint allWhite (s : string) : bool :=
  match s with
  | EmptyString => true
  | String c s' => Js.isWhite c && allWhite s'
  end.

(** A string free of separators, and a string with its separators removed:
    what the pieces of a split are, and what they add up to. *)
Fixpoint noSep (s : string) : bool :=
  match s with
  | EmptyString => true
  | String c s' => negb (Js.isSep c) && noSep s'
  end.

Fixpoint dropSeps (s : string) : string :=
  match s with
  | EmptyString => EmptyString
  | String c s' => if Js.isSep c then dropSeps s' else String c (dropSeps s')
  end.

(** ** A sample environment

    A credential, a remote service and a clock to run the operations on:
    the service knows P1 (status 200), answers 404 "not found" in the body
    for P2, and answers every other identifier with status 201. *)

Definition sampleKey : option string := Some "KEY".

Definition sampleShipment : Shipment :=
  mkShipment
    (mkSummary "P1" "pos" "Paket Kilat" "DELIVERED" "2024-01-02 10:00:00" "" "" "1")
    (mkDetail "JAKARTA" "BANDUNG" "Budi" "Siti")
    [mkHistory "2024-01-02 10:00:00" "Diterima oleh Siti" "BANDUNG";
     mkHistory "2024-01-01 08:00:00" "Paket dikirim" "JAKARTA"].

Definition payload200 : TrackingData :=
  mkTrackingData 200 "Successfully tracked package" (Some sampleShipment).

Definition payload201 : TrackingData :=
  mkTrackingData 201 "Created" (Some sampleShipment).

Definition payload404 : TrackingData := mkTrackingData 404 "not found" None.

Definition sampleRemote (n : nat) (url : string) : FetchOutcome :=
  if String.eqb url "https://api.binderbyte.com/v1/track?api_key=KEY&courier=pos&awb=P1"
  then FetchResponse 200 (JsonValue payload200)
  else if String.eqb url "https://api.binderbyte.com/v1/track?api_key=KEY&courier=pos&awb=P2"
  then FetchResponse 200 (JsonValue payload404)
  else FetchResponse 200 (JsonValue payload201).

Definition sampleClock (n : nat) : string := "2024-01-03T00:00:00.000Z".

(** The input of the scenario: P1, P2 and P3 over two lines. *)
Definition scenarioText : string := "P1, P2" ++ Js.nl ++ "P3".

Definition initial (text : string) (l : list ResiItem) : World :=
  mkWorld text l false [].

(** Sample states: the scenario before submission, a duplicated identifier,
    a batch that holds a payload for P1, and a batch of one fresh record. *)
Definition scenarioWorld : World := initial scenarioText [].

Definition duplicateWorld : World := initial "P1,P1" [].

Definition trackedItem : ResiItem :=
  mkResiItem "P1" (Some payload200) false None (Some "2024-01-02T00:00:00.000Z").

Definition trackedWorld : World := initial "" [trackedItem; freshItem "P2"].

Definition freshWorld : World := initial "" [freshItem "P3"].

(** ** The asynchronous operations *)

Section Tracker.

(** [process.env.NEXT_PUBLIC_BINDERBYTE_API_KEY] *)
Variable API_KEY : option string.

(** The remote service and the wall clock: what the request issued, and the
    date read, after [n] logged events give. *)
Variable remote : nat -> string -> FetchOutcome.
Variable clock : nat -> string.

(** [!API_KEY] *)
Definition keyMissing : bool := negb (Js.truthyOpt API_KEY).

Definition trackUrl (r : string) : string :=
  "https://api.binderbyte.com/v1/track?api_key="
  ++ match API_KEY with Some k => k | None => "undefined" end
  ++ "&courier=pos&awb=" ++ r.

(** [await fetch(url)] *)
Definition awaitFetch (url : string) : M FetchOutcome :=
  fun w => (remote (length (events w)) url,
            mkWorld (resiNumbers w) (resiList w) (isTracking w)
                    (events w ++ [EvFetch url])).

(** [new Date().toISOString()] *)
Definition newDateISO : M string := fun w => (clock (length (events w)), w).

(** [trackResi]: [inr] is the returned payload, [inl] the thrown value. *)
Definition trackResi (r : string) : M (Thrown + TrackingData) :=
  if keyMissing then ret (inl (ThrownError "API Key tidak ditemukan"))
  else
    resp <- awaitFetch (trackUrl r) ;;
    ret (readResponse resp).

(** Lines 109-138: the body of the batch loop up to the pause. *)
Definition attempt (r : string) : M unit :=
  setResiList (markLoading r) ;;
  res <- trackResi r ;;
  match res with
  | inr d =>
      ts <- newDateISO ;;
      setResiList (storeData r d ts)
  | inl t =>
      consoleError ("Error tracking " ++ r ++ ":") t ;;
      ts <- newDateISO ;;
      setResiList (storeError r (errorMessage t) ts)
  end.

(** Lines 108-143.  [rest] is [newResiList] from index [i] on, so the test
    [i < newResiList.length - 1] reads: the tail of [rest] is not empty. *)
Fixpoint batchLoop (rest : list ResiItem) : M unit :=
  match rest with
  | [] => ret tt
  | item :: rest' =>
      attempt (resi item) ;;
      match rest' with
      | [] => ret tt
      | _ :: _ => awaitDelay 1000
      end ;;
      batchLoop rest'
  end.

Definition processResi : M unit :=
  text <- getResiNumbers ;;
  if negb (Js.truthy (Js.trim text)) then
    alert "Silakan masukkan nomor resi"
  else if keyMissing then
    alert "API Key tidak ditemukan. Silakan cek konfigurasi environment variables."
  else
    let resiArray := parseResi text in
    if (length resiArray =? 0)%nat then
      alert "Tidak ada nomor resi yang valid"
    else
      let newResiList := map freshItem resiArray in
      setResiList (fun _ => newResiList) ;;
      setIsTracking true ;;
      batchLoop newResiList ;;
      setIsTracking false.

Definition trackSingleResi (r : string) : M unit :=
  if keyMissing then alert "API Key tidak ditemukan"
  else
    setResiList (markLoading r) ;;
    res <- trackResi r ;;
    match res with
    | inr d =>
        ts <- newDateISO ;;
        setResiList (storeData r d ts)
    | inl t =>
        consoleError ("Error tracking " ++ r ++ ":") t ;;
        ts <- newDateISO ;;
        setResiList (storeError r (errorMessage t) ts)
    end.

(** Running an operation: the state it leaves. *)
Definition exec {A : Type} (m : M A) (w : World) : World := snd (m w).

(** ** One attempt, read off as pure functions

    With [n] events logged, an attempt marks the records (event [n]), issues
    its request (event [n+1], answered by [remote (n+1)]) and stores the
    outcome, stamped by the clock after the request (and after the console
    message, when the lookup failed). *)

Definition attemptOutcome (w : World) (r : string) : Thrown + TrackingData :=
  readResponse (remote (S (length (events w))) (trackUrl r)).

Definition settle (r : string) (res : Thrown + TrackingData) (n : nat)
  (l : list ResiItem) : list ResiItem :=
  match res with
  | inr d => storeData r d (clock (n + 2)) l
  | inl t => storeError r (errorMessage t) (clock (n + 3)) l
  end.

Definition attemptList (w : World) (r : string) : list ResiItem :=
  settle r (attemptOutcome w r) (length (events w))
         (markLoading r (resiList w)).

Definition attemptEvents (w : World) (r : string) : list Event :=
  [EvSetResiList (markLoading r (resiList w)); EvFetch (trackUrl r)]
  ++ match attemptOutcome w r with
     | inr _ => []
     | inl t => [EvConsoleError ("Error tracking " ++ r ++ ":") t]
     end
  ++ [EvSetResiList (attemptList w r)].

(** Requests separated by pauses of one second. *)
Fixpoint schedule (urls : list string) : list Event :=
  match urls with
  | [] => []
  | u :: urls' =>
      EvFetch u ::
      match urls' with
      | [] => []
      | _ :: _ => EvDelay 1000 :: schedule urls'
      end
  end.

(** A record reflects the outcome of a lookup. *)
Definition reflects (res : Thrown + TrackingData) (item : ResiItem) : Prop :=
  match res with
  | inr d => r_data item = Some d /\ error item = None
  | inl t => r_data item = None /\ error item = Some (errorMessage t)
  end.

(** All in-progress records of a collection carry one identifier. *)
Definition oneIdentifier (l : list ResiItem) : Prop :=
  forall a b, In a (inProgress l) -> In b (inProgress l) -> resi a = resi b.

(** The state after one attempt, after the pause that follows it when
    records remain, and after the whole loop. *)
Definition afterAttempt (w : World) (r : string) : World :=
  mkWorld (resiNumbers w) (attemptList w r) (isTracking w)
          (events w ++ attemptEvents w r).

Definition afterPause (rest : list ResiItem) (w : World) : World :=
  match rest with
  | [] => w
  | _ :: _ => mkWorld (resiNumbers w) (resiList w) (isTracking w)
                      (events w ++ [EvDelay 1000])
  end.

Fixpoint loopWorld (rest : list ResiItem) (w : World) : World :=
  match rest with
  | [] => w
  | item :: rest' =>
      loopWorld rest' (afterPause rest' (afterAttempt w (resi item)))
  end.

(** The state in which the loop starts and the state [processResi] ends in. *)
Definition started (w : World) (newResiList : list ResiItem) : World :=
  mkWorld (resiNumbers w) newResiList true
          (events w ++ [EvSetResiList newResiList; EvSetIsTracking true]).

Definition finished (w : World) : World :=
  mkWorld (resiNumbers w) (resiList w) false
          (events w ++ [EvSetIsTracking false]).

(** The state a rejected submission or refresh ends in. *)
Definition alerted (w : World) (msg : string) : World :=
  mkWorld (resiNumbers w) (resiList w) (isTracking w)
          (events w ++ [EvAlert msg]).

(** What an attempt on [r] with outcome [res], stamped [ts], makes of a
    record carrying [r]. *)
Definition settledItem (res : Thrown + TrackingData) (ts : string)
  (item : ResiItem) : ResiItem :=
  match res with
  | inr d => mkResiItem (resi item) (Some d) false None (Some ts)
  | inl t => mkResiItem (resi item) None false (Some (errorMessage t)) (Some ts)
  end.

Definition stampOf (res : Thrown + TrackingData) (n : nat) : string :=
  match res with
  | inr _ => clock (n + 2)
  | inl _ => clock (n + 3)
  end.

(** A record whose lookup is over. *)
Definition completed (item : ResiItem) : Prop :=
  exactlyOne item /\ loading item = false.

Definition idle (item : ResiItem) : Prop := loading item = false.

(** Column names of the two export sheets. *)
Definition pageColumns : list string :=
  ["No Resi"; "Status"; "Layanan"; "Tanggal"; "Pengirim"; "Penerima";
   "Status Terakhir"; "Pesan Error"].

Definition componentColumns : list string :=
  ["No Resi"; "Penerima"; "Status Terakhir"; "Pesan Error"].

(** ** The remaining handlers and derived values *)

(** The text [copyAllResi] writes to the clipboard:
    [resiList.map(item => item.resi).join('\n')]. *)
Definition copyAllText (l : list ResiItem) : string :=
  String.concat Js.nl (map resi l).

(** [setResiNumbers(text)], the setter behind the text area; it is not
    logged. *)
Definition setResiNumbers (text : string) : M unit :=
  fun w => (tt, mkWorld text (resiList w) (isTracking w) (events w)).

(** [clearAll], lines 233-236. *)
Definition clearAll : M unit :=
  setResiList (fun _ => []) ;;
  setResiNumbers "".

(** [iso.split('T')[0]]: the text before the first T. *)
Fixpoint beforeT (iso : string) : string :=
  match iso with
  | EmptyString => EmptyString
  | String c iso' =>
      if Ascii.eqb c "T" then EmptyString else String c (beforeT iso')
  end.

(** The name [exportToExcel] gives the file, from the reading
    [new Date().toISOString()] of the clock (line 230). *)
Definition exportFileName (iso : string) : string :=
  "tracking-pos-" ++ beforeT iso ++ ".xlsx".

(** How many of the three content panels the card of a record shows. *)
Definition panelCount (item : ResiItem) : nat :=
  (if showsErrorPanel item then 1 else 0)
  + (if showsResultPanel item then 1 else 0)
  + (if showsNotFoundPanel item then 1 else 0).

(** An identifier as a submission keeps them: not empty, starting with P,
    free of separators, and with no white space around it. *)
Definition cleanResi (r : string) : Prop :=
  r <> EmptyString /\ Js.startsWith "P" r = true /\
  noSep r = true /\ Js.trim r = r.

(** Trimming and filtering the pieces of a split (lines 89-90). *)
Definition keepValid (pieces : list string) : list string :=
  filter validResi (map Js.trim pieces).

(** The record holds the outcome of a request the log shows for its own
    identifier, and the date it was stored. *)
Definition answered (w : World) (item : ResiItem) : Prop :=
  exists n,
    nth_error (events w) n = Some (EvFetch (trackUrl (resi item))) /\
    reflects (readResponse (remote n (trackUrl (resi item)))) item /\
    lastUpdated item <> None.

(** ** The turns of the batch loop in the log *)

(** The pause that follows a turn when identifiers remain. *)
Definition pauseAfter (rest : list string) : list Event :=
  match rest with
  | [] => []
  | _ :: _ => [EvDelay 1000]
  end.

(** [turnsOf toks rs evs]: the log [evs] is made of one turn per identifier
    of [rs], in order.  A turn on [r] writes a collection whose in-progress
    records are exactly those carrying [r], issues the request for [r] next,
    logs at most a console message, writes a collection without in-progress
    record, and pauses when identifiers remain.  Every collection written
    carries the identifiers [toks]. *)
Fixpoint turnsOf (toks rs : list string) (evs : list Event) : Prop :=
  match rs with
  | [] => evs = []
  | r :: rs' =>
      exists marked noise settled evs',
        evs = EvSetResiList marked :: EvFetch (trackUrl r)
              :: noise ++ EvSetResiList settled :: pauseAfter rs' ++ evs' /\
        (noise = [] \/ exists msg t, noise = [EvConsoleError msg t]) /\
        map resi marked = toks /\
        (forall a, In a marked -> (loading a = true <-> resi a = r)) /\
        map resi settled = toks /\
        inProgress settled = [] /\
        turnsOf toks rs' evs'
  end.

(** What [trackSingleResi] does at once when Refresh is clicked, up to the
    request it then waits for: lines 149-159, and lines 55-61 of
    [trackResi]. *)
Definition refreshStarts (r : string) : M unit :=
  if keyMissing then alert "API Key tidak ditemukan"
  else
    setResiList (markLoading r) ;;
    emit (EvFetch (trackUrl r)).

(** * Parsing the input *)

Lemma trimStart_empty (s : string) :
  Js.trimStart s = EmptyString -> allWhite s = true.
Proof.
  induction s as [|c s IH]; simpl; [reflexivity|].
  destruct (Js.isWhite c); simpl; [exact IH | discriminate].
Qed.

Lemma trimStart_head (s : string) (c : ascii) (t : string) :
  Js.trimStart s = String c t -> Js.isWhite c = false.
Proof.
  induction s as [|c' s IH]; simpl; [discriminate|].
  destruct (Js.isWhite c') eqn:E; [exact IH|].
  intros H; inversion H; subst; exact E.
Qed.

Lemma trimEnd_empty (s : string) :
  Js.trimEnd s = EmptyString -> allWhite s = true.
Proof.
  induction s as [|c s IH]; simpl; [reflexivity|].
  destruct (Js.trimEnd s); [|discriminate].
  destruct (Js.isWhite c); [intros _; simpl; now apply IH | discriminate].
Qed.

Lemma trim_empty_allWhite (s : string) :
  Js.trim s = EmptyString -> allWhite s = true.
Proof.
  unfold Js.trim; intros H.
  apply trimEnd_empty in H.
  destruct (Js.trimStart s) as [|c t] eqn:E.
  - now apply trimStart_empty.
  - apply trimStart_head in E. simpl in H. rewrite E in H. discriminate.
Qed.

Lemma allWhite_trim (s : string) :
  allWhite s = true -> Js.trim s = EmptyString.
Proof.
  unfold Js.trim.
  induction s as [|c s IH]; simpl; [reflexivity|].
  intros H; apply andb_prop in H as [Hc Hs].
  rewrite Hc. now apply IH.
Qed.

Lemma isSep_isWhite_free (c : ascii) (s : string) (b : bool) :
  Forall (fun t => allWhite t = true) (Js.splitFrom b s) ->
  Js.isWhite c = true ->
  Forall (fun t => allWhite t = true)
         (match Js.splitFrom b s with
          | t :: ts => String c t :: ts
          | [] => [String c EmptyString]
          end).
Proof.
  intros H Hc. destruct (Js.splitFrom b s) as [|t ts].
  - constructor; [simpl; now rewrite Hc | constructor].
  - inversion H; subst. constructor; [simpl; rewrite Hc; assumption | assumption].
Qed.

Lemma allWhite_split (s : string) :
  allWhite s = true ->
  forall b, Forall (fun t => allWhite t = true) (Js.splitFrom b s).
Proof.
  induction s as [|c s IH]; simpl; intros H b.
  - repeat constructor.
  - apply andb_prop in H as [Hc Hs].
    destruct (Js.isSep c).
    + destruct b; [now apply IH | constructor; [reflexivity | now apply IH]].
    + apply isSep_isWhite_free; [now apply IH | exact Hc].
Qed.

Lemma parseResi_blank (text : string) :
  Js.trim text = EmptyString -> parseResi text = [].
Proof.
  intros H. apply trim_empty_allWhite in H.
  unfold parseResi, Js.split.
  pose proof (allWhite_split text H false) as HF.
  induction HF as [|t ts Ht _ IH]; simpl; [reflexivity|].
  rewrite (allWhite_trim t Ht). simpl. exact IH.
Qed.

Lemma split_noSep (s : string) (b : bool) :
  Forall (fun t => noSep t = true) (Js.splitFrom b s).
Proof.
  revert b. induction s as [|c s IH]; intros b; cbn [Js.splitFrom].
  - repeat constructor.
  - destruct (Js.isSep c) eqn:E.
    + destruct b; [apply IH | constructor; [reflexivity | apply IH]].
    + specialize (IH false). destruct (Js.splitFrom false s) as [|t ts].
      * constructor; [cbn; now rewrite E | constructor].
      * inversion IH; subst. constructor; [cbn; rewrite E; assumption | assumption].
Qed.

Lemma split_pieces (s : string) (b : bool) :
  fold_right append EmptyString (Js.splitFrom b s) = dropSeps s.
Proof.
  revert b. induction s as [|c s IH]; intros b; cbn [Js.splitFrom dropSeps].
  - reflexivity.
  - destruct (Js.isSep c).
    + destruct b; [apply IH | cbn; apply IH].
    + specialize (IH false). destruct (Js.splitFrom false s) as [|t ts].
      * cbn in IH. rewrite <- IH. reflexivity.
      * cbn [fold_right] in *. cbn. rewrite IH. reflexivity.
Qed.

Lemma truthy_false (s : string) : Js.truthy s = false -> s = EmptyString.
Proof. destruct s; simpl; [reflexivity | discriminate]. Qed.

Lemma parseResi_valid (text r : string) :
  In r (parseResi text) ->
  r <> EmptyString /\ Js.startsWith "P" r = true /\
  exists t, In t (Js.split text) /\ r = Js.trim t.
Proof.
  unfold parseResi. rewrite filter_In, in_map_iff.
  intros [[t [Ht Hin]] Hv]. unfold validResi in Hv.
  apply andb_prop in Hv as [Hlen Hp]. repeat split.
  - intros ->. discriminate.
  - exact Hp.
  - exists t. auto.
Qed.

(** * Running the operations *)

Lemma newEvents_app (w w' : World) (evs : list Event) :
  events w' = events w ++ evs -> newEvents w w' = evs.
Proof.
  intros H. unfold newEvents. rewrite H, skipn_app, skipn_all, Nat.sub_diag.
  reflexivity.
Qed.

Lemma attempt_run (r : string) (w : World) :
  keyMissing = false ->
  attempt r w =
  (tt, mkWorld (resiNumbers w) (attemptList w r) (isTracking w)
               (events w ++ attemptEvents w r)).
Proof.
  intros K.
  unfold attempt, trackResi, attemptEvents, attemptList, attemptOutcome.
  rewrite K.
  unfold bind, setResiList, awaitFetch, ret, newDateISO, consoleError, emit, settle.
  cbn [resiNumbers resiList isTracking events fst snd].
  rewrite !length_app. cbn [length]. rewrite Nat.add_1_r.
  destruct (readResponse _) as [t|d];
    cbn [resiNumbers resiList isTracking events];
    rewrite ?length_app; cbn [length];
    rewrite <- ?Nat.add_assoc; cbn [Nat.add];
    rewrite <- !app_assoc; reflexivity.
Qed.

Lemma trackSingleResi_attempt (r : string) (w : World) :
  keyMissing = false -> trackSingleResi r w = attempt r w.
Proof. intros K. unfold trackSingleResi, attempt. rewrite K. reflexivity. Qed.

Lemma batchLoop_run (rest : list ResiItem) (w : World) :
  keyMissing = false -> batchLoop rest w = (tt, loopWorld rest w).
Proof.
  intros K. revert w.
  induction rest as [|item rest IH]; intros w; [reflexivity|].
  cbn [batchLoop loopWorld]. unfold bind at 1. rewrite (attempt_run _ _ K).
  unfold bind at 1. fold (afterAttempt w (resi item)).
  destruct rest as [|item' rest'].
  - reflexivity.
  - unfold awaitDelay, emit. cbn [afterPause]. apply IH.
Qed.

Lemma processResi_run (w : World) :
  keyMissing = false ->
  parseResi (resiNumbers w) <> [] ->
  exec processResi w =
  finished (loopWorld (map freshItem (parseResi (resiNumbers w)))
                      (started w (map freshItem (parseResi (resiNumbers w))))).
Proof.
  intros K Hne. unfold exec, processResi, bind at 1, getResiNumbers.
  destruct (Js.truthy (Js.trim (resiNumbers w))) eqn:T.
  2:{ apply truthy_false, parseResi_blank in T. contradiction. }
  cbn [negb]. rewrite K.
  destruct (parseResi (resiNumbers w)) as [|r0 rs] eqn:P; [contradiction|].
  cbn [length Nat.eqb].
  unfold bind at 1, setResiList at 1. cbn [resiNumbers resiList isTracking events].
  unfold bind at 1, setIsTracking at 1. cbn [resiNumbers resiList isTracking events].
  unfold bind at 1. rewrite (batchLoop_run _ _ K).
  rewrite <- app_assoc. cbn [app snd setIsTracking].
  reflexivity.
Qed.

Lemma processResi_rejected (w : World) :
  keyMissing = true \/ parseResi (resiNumbers w) = [] ->
  exists msg, exec processResi w = alerted w msg.
Proof.
  intros H. unfold exec, processResi, bind at 1, getResiNumbers.
  destruct (Js.truthy (Js.trim (resiNumbers w))); cbn [negb];
    [|eexists; reflexivity].
  destruct keyMissing eqn:K; [eexists; reflexivity|].
  destruct H as [H|H]; [discriminate|]. rewrite H.
  eexists; reflexivity.
Qed.

Lemma trackSingleResi_run (r : string) (w : World) :
  keyMissing = false -> exec (trackSingleResi r) w = afterAttempt w r.
Proof.
  intros K. unfold exec. rewrite (trackSingleResi_attempt _ _ K), (attempt_run _ _ K).
  reflexivity.
Qed.

Lemma trackSingleResi_rejected (r : string) (w : World) :
  keyMissing = true ->
  exec (trackSingleResi r) w = alerted w "API Key tidak ditemukan".
Proof. intros K. unfold exec, trackSingleResi. rewrite K. reflexivity. Qed.

(** * Reading the log of a run *)

Lemma snapshots_app (a b : list Event) :
  snapshots (a ++ b) = snapshots a ++ snapshots b.
Proof.
  induction a as [|e a IH]; [reflexivity|].
  destruct e; cbn [app snapshots]; rewrite IH; reflexivity.
Qed.

Lemma fetches_app (a b : list Event) :
  fetches (a ++ b) = fetches a ++ fetches b.
Proof.
  induction a as [|e a IH]; [reflexivity|].
  destruct e; cbn [app fetches]; rewrite IH; reflexivity.
Qed.

Lemma flagWrites_app (a b : list Event) :
  flagWrites (a ++ b) = flagWrites a ++ flagWrites b.
Proof.
  induction a as [|e a IH]; [reflexivity|].
  destruct e; cbn [app flagWrites]; rewrite IH; reflexivity.
Qed.

Lemma pacing_app (a b : list Event) :
  pacing (a ++ b) = pacing a ++ pacing b.
Proof.
  induction a as [|e a IH]; [reflexivity|].
  destruct e; cbn [app pacing]; rewrite IH; reflexivity.
Qed.

Lemma fetches_pacing (a : list Event) : fetches (pacing a) = fetches a.
Proof.
  induction a as [|e a IH]; [reflexivity|].
  destruct e; cbn [pacing fetches]; rewrite ?IH; reflexivity.
Qed.

Lemma delays_pacing (a : list Event) : delays (pacing a) = delays a.
Proof.
  induction a as [|e a IH]; [reflexivity|].
  destruct e; cbn [pacing delays]; rewrite ?IH; reflexivity.
Qed.

Lemma fetches_schedule (urls : list string) : fetches (schedule urls) = urls.
Proof.
  induction urls as [|u urls IH]; [reflexivity|].
  cbn [schedule fetches]. destruct urls as [|u' urls']; [reflexivity|].
  cbn [fetches]. cbn [fetches] in IH. rewrite IH. reflexivity.
Qed.

Lemma delays_schedule (urls : list string) :
  delays (schedule urls) = repeat 1000%Z (length urls - 1).
Proof.
  induction urls as [|u urls IH]; [reflexivity|].
  cbn [schedule delays]. destruct urls as [|u' urls']; [reflexivity|].
  cbn [delays]. rewrite IH. cbn [length Nat.sub]. rewrite Nat.sub_0_r.
  reflexivity.
Qed.

Lemma attemptEvents_snapshots (w : World) (r : string) :
  snapshots (attemptEvents w r) =
  [markLoading r (resiList w); attemptList w r].
Proof. unfold attemptEvents. destruct (attemptOutcome w r); reflexivity. Qed.

Lemma attemptEvents_pacing (w : World) (r : string) :
  pacing (attemptEvents w r) = [EvFetch (trackUrl r)].
Proof. unfold attemptEvents. destruct (attemptOutcome w r); reflexivity. Qed.

Lemma attemptEvents_flagWrites (w : World) (r : string) :
  flagWrites (attemptEvents w r) = [].
Proof. unfold attemptEvents. destruct (attemptOutcome w r); reflexivity. Qed.

Lemma afterPause_fields (rest : list ResiItem) (w : World) :
  resiNumbers (afterPause rest w) = resiNumbers w /\
  resiList (afterPause rest w) = resiList w /\
  isTracking (afterPause rest w) = isTracking w /\
  events (afterPause rest w) =
  events w ++ match rest with [] => [] | _ :: _ => [EvDelay 1000] end.
Proof. destruct rest; cbn; rewrite ?app_nil_r; auto. Qed.

(** The log of the loop: requests in the order of the records, a pause
    between two requests, and no write to the flag. *)
Lemma loopWorld_log (rest : list ResiItem) (w : World) :
  exists evs,
    events (loopWorld rest w) = events w ++ evs /\
    pacing evs = schedule (map trackUrl (map resi rest)) /\
    flagWrites evs = [] /\
    resiNumbers (loopWorld rest w) = resiNumbers w /\
    isTracking (loopWorld rest w) = isTracking w.
Proof.
  revert w. induction rest as [|item rest IH]; intros w.
  - exists []. cbn. rewrite app_nil_r. auto.
  - cbn [loopWorld].
    destruct (IH (afterPause rest (afterAttempt w (resi item))))
      as (evs & He & Hp & Hf & Hn & Ht).
    destruct (afterPause_fields rest (afterAttempt w (resi item)))
      as (Pn & _ & Pt & Pe).
    exists (attemptEvents w (resi item)
            ++ match rest with [] => [] | _ :: _ => [EvDelay 1000] end ++ evs).
    rewrite He, Pe, Hn, Pn, Ht, Pt. cbn [afterAttempt events resiNumbers isTracking].
    rewrite <- !app_assoc. repeat split.
    + rewrite !pacing_app, attemptEvents_pacing, Hp.
      destruct rest; reflexivity.
    + rewrite !flagWrites_app, attemptEvents_flagWrites, Hf.
      destruct rest; reflexivity.
Qed.

(** * The updaters *)

Lemma attemptList_map (w : World) (r : string) :
  attemptList w r =
  map (fun item =>
         if String.eqb (resi item) r
         then settledItem (attemptOutcome w r)
                (stampOf (attemptOutcome w r) (length (events w))) item
         else item) (resiList w).
Proof.
  unfold attemptList, settle, settledItem, stampOf, storeData, storeError, markLoading.
  destruct (attemptOutcome w r); rewrite map_map; apply map_ext; intros a;
    destruct (String.eqb (resi a) r) eqn:E; cbn [resi]; rewrite E; reflexivity.
Qed.

Lemma settledItem_facts (res : Thrown + TrackingData) (ts : string) (a : ResiItem) :
  resi (settledItem res ts a) = resi a /\
  reflects res (settledItem res ts a) /\
  completed (settledItem res ts a).
Proof.
  destruct res as [t|d]; cbn; repeat split; auto.
  - right. cbn. eauto.
  - left. cbn. eauto.
Qed.

Lemma markLoading_resi (r : string) (l : list ResiItem) :
  map resi (markLoading r l) = map resi l.
Proof.
  unfold markLoading. rewrite map_map. apply map_ext. intros a.
  destruct (String.eqb (resi a) r); reflexivity.
Qed.

Lemma attemptList_resi (w : World) (r : string) :
  map resi (attemptList w r) = map resi (resiList w).
Proof.
  rewrite attemptList_map, map_map. apply map_ext. intros a.
  destruct (String.eqb (resi a) r); [apply settledItem_facts | reflexivity].
Qed.

Lemma loopWorld_resi (rest : list ResiItem) (w : World) :
  map resi (resiList (loopWorld rest w)) = map resi (resiList w).
Proof.
  revert w. induction rest as [|item rest IH]; intros w; [reflexivity|].
  cbn [loopWorld]. rewrite IH.
  destruct (afterPause_fields rest (afterAttempt w (resi item))) as (_ & -> & _).
  apply attemptList_resi.
Qed.


(** A property [Q] of the collection that every updater establishes from the
    loop invariant [J] holds of every collection the loop logs. *)
Lemma loopWorld_snapshots (J Q : list ResiItem -> Prop) :
  (forall l r, J l -> Q (markLoading r l)) ->
  (forall w r, J (resiList w) -> J (attemptList w r) /\ Q (attemptList w r)) ->
  forall rest w,
    J (resiList w) ->
    J (resiList (loopWorld rest w)) /\
    exists evs, events (loopWorld rest w) = events w ++ evs /\
                Forall Q (snapshots evs).
Proof.
  intros Hmark Hsettle rest. induction rest as [|item rest IH]; intros w HJ.
  - split; [exact HJ|]. exists []. cbn. rewrite app_nil_r. auto.
  - cbn [loopWorld].
    destruct (afterPause_fields rest (afterAttempt w (resi item)))
      as (_ & Pl & _ & Pe).
    destruct (Hsettle w (resi item) HJ) as [HJ' HQ'].
    destruct (IH (afterPause rest (afterAttempt w (resi item)))) as [HJ2 (evs & He & HQ)].
    { rewrite Pl. exact HJ'. }
    split; [exact HJ2|].
    exists (attemptEvents w (resi item)
            ++ match rest with [] => [] | _ :: _ => [EvDelay 1000] end ++ evs).
    rewrite He, Pe. cbn [afterAttempt events]. rewrite <- !app_assoc.
    split; [reflexivity|].
    rewrite !snapshots_app, attemptEvents_snapshots.
    cbn [app]. constructor; [now apply Hmark|]. constructor; [exact HQ'|].
    destruct rest; cbn [snapshots app]; exact HQ.
Qed.

(** * Submitting a batch *)

Lemma parseResi_In (text r : string) :
  In r (parseResi text) <->
  (r <> EmptyString /\ Js.startsWith "P" r = true /\
   exists t, In t (Js.split text) /\ r = Js.trim t).
Proof.
  split; [apply parseResi_valid|].
  intros (Hne & Hp & t & Ht & ->).
  unfold parseResi. apply filter_In. split.
  - apply in_map. exact Ht.
  - unfold validResi. rewrite Hp, andb_true_r.
    destruct (Js.trim t); [contradiction | reflexivity].
Qed.

Lemma freshItem_resi (toks : list string) : map resi (map freshItem toks) = toks.
Proof. rewrite map_map. cbn. apply map_id. Qed.

(** The log of an accepted submission: the fresh batch, the flag raised, the
    loop, the flag lowered. *)
Lemma processResi_log (w : World) :
  keyMissing = false ->
  parseResi (resiNumbers w) <> [] ->
  exists mid,
    newEvents w (exec processResi w) =
      EvSetResiList (map freshItem (parseResi (resiNumbers w)))
      :: EvSetIsTracking true :: mid ++ [EvSetIsTracking false] /\
    pacing mid = schedule (map trackUrl (parseResi (resiNumbers w))) /\
    flagWrites mid = [] /\
    events (loopWorld (map freshItem (parseResi (resiNumbers w)))
                      (started w (map freshItem (parseResi (resiNumbers w))))) =
      events (started w (map freshItem (parseResi (resiNumbers w)))) ++ mid.
Proof.
  intros K Hne. rewrite (processResi_run w K Hne).
  set (new := map freshItem (parseResi (resiNumbers w))).
  destruct (loopWorld_log new (started w new)) as (mid & He & Hp & Hf & _ & _).
  exists mid. repeat split; auto.
  - apply newEvents_app. unfold finished. cbn [events]. rewrite He.
    unfold started. cbn [events]. rewrite <- !app_assoc. reflexivity.
  - rewrite Hp. unfold new. rewrite freshItem_resi. reflexivity.
Qed.

Lemma processResi_list (w : World) :
  keyMissing = false ->
  parseResi (resiNumbers w) <> [] ->
  resiList (exec processResi w) =
  resiList (loopWorld (map freshItem (parseResi (resiNumbers w)))
                      (started w (map freshItem (parseResi (resiNumbers w))))).
Proof. intros K Hne. rewrite (processResi_run w K Hne). reflexivity. Qed.

(** C1.  With the credential configured, [processResi] splits the text on
    commas and newlines (the pieces hold no separator and add up to the text
    without its separators), trims the pieces and keeps exactly the non-empty
    ones that start with P; when some are kept, the first thing it does is to
    replace the batch by one fresh record per kept token, in their order, and
    the batch keeps these identifiers to the end; when none is kept it
    alerts, and logs no change of the batch. *)
Theorem C1_submit_one_record_per_token (w : World) :
  keyMissing = false ->
  let toks := filter validResi (map Js.trim (Js.split (resiNumbers w))) in
  let w' := exec processResi w in
  (Forall (fun t => noSep t = true) (Js.split (resiNumbers w)) /\
   fold_right append EmptyString (Js.split (resiNumbers w)) =
   dropSeps (resiNumbers w)) /\
  (forall r, In r toks <->
             (r <> EmptyString /\ Js.startsWith "P" r = true /\
              exists t, In t (Js.split (resiNumbers w)) /\ r = Js.trim t)) /\
  (toks <> [] ->
   (exists later,
      newEvents w w' = EvSetResiList (map freshItem toks) :: later) /\
   map resi (resiList w') = toks /\
   length (resiList w') = length toks) /\
  (toks = [] ->
   (exists msg, newEvents w w' = [EvAlert msg]) /\
   snapshots (newEvents w w') = [] /\
   resiList w' = resiList w).
Proof.
  intros K toks w'. fold (parseResi (resiNumbers w)) in toks.
  split; [split; [apply split_noSep | apply split_pieces]|].
  split; [intros r; apply parseResi_In|]. split.
  - intros Hne.
    destruct (processResi_log w K Hne) as (mid & Hev & _).
    assert (Hr : map resi (resiList w') = toks).
    { unfold w'. rewrite (processResi_list w K Hne), loopWorld_resi.
      cbn [started resiList]. apply freshItem_resi. }
    repeat split.
    + eexists. exact Hev.
    + exact Hr.
    + rewrite <- (length_map resi), Hr. reflexivity.
  - intros He.
    destruct (processResi_rejected w (or_intror He)) as [msg Hm].
    assert (Hn : newEvents w w' = [EvAlert msg]).
    { apply newEvents_app. unfold w'. rewrite Hm. reflexivity. }
    repeat split.
    + exists msg. exact Hn.
    + rewrite Hn. reflexivity.
    + unfold w'. rewrite Hm. reflexivity.
Qed.

(** C4.  When the credential is absent or no token is valid, [processResi]
    only alerts: the batch is the one it found, no collection is written, no
    request is issued and the flag is not touched. *)
Theorem C4_rejected_submit_changes_nothing (w : World) :
  keyMissing = true \/ parseResi (resiNumbers w) = [] ->
  let w' := exec processResi w in
  resiList w' = resiList w /\
  isTracking w' = isTracking w /\
  snapshots (newEvents w w') = [] /\
  fetches (newEvents w w') = [] /\
  exists msg, newEvents w w' = [EvAlert msg].
Proof.
  intros H w'. destruct (processResi_rejected w H) as [msg Hm].
  assert (Hn : newEvents w w' = [EvAlert msg]).
  { apply newEvents_app. unfold w'. rewrite Hm. reflexivity. }
  rewrite Hn. unfold w'. rewrite Hm. cbn. eauto 6.
Qed.

(** * Pacing of the batch *)

Lemma idle_inProgress (l : list ResiItem) :
  Forall idle l -> inProgress l = [].
Proof.
  unfold inProgress. induction 1 as [|a l Ha _ IH]; [reflexivity|].
  cbn. rewrite Ha. exact IH.
Qed.

Lemma idle_oneIdentifier (l : list ResiItem) : Forall idle l -> oneIdentifier l.
Proof. intros H a b Ha. rewrite (idle_inProgress l H) in Ha. destruct Ha. Qed.

Lemma markLoading_inProgress (r : string) (l : list ResiItem) (a : ResiItem) :
  Forall idle l -> In a (inProgress (markLoading r l)) -> resi a = r.
Proof.
  intros Hl. unfold inProgress, markLoading.
  rewrite filter_In, in_map_iff. intros [(x & Hx & Hin) Hload].
  rewrite Forall_forall in Hl. specialize (Hl x Hin). unfold idle in Hl.
  destruct (String.eqb (resi x) r) eqn:E.
  - subst a. cbn. now apply String.eqb_eq.
  - subst a. congruence.
Qed.

Lemma markLoading_oneIdentifier (r : string) (l : list ResiItem) :
  Forall idle l -> oneIdentifier (markLoading r l).
Proof.
  intros Hl a b Ha Hb.
  rewrite (markLoading_inProgress r l a Hl Ha), (markLoading_inProgress r l b Hl Hb).
  reflexivity.
Qed.

Lemma attemptList_idle (w : World) (r : string) :
  Forall idle (resiList w) -> Forall idle (attemptList w r).
Proof.
  intros H. rewrite attemptList_map. apply Forall_map.
  eapply Forall_impl; [|exact H]. intros a Ha. cbn beta.
  destruct (String.eqb (resi a) r); [apply settledItem_facts | exact Ha].
Qed.

Lemma oneIdentifier_NoDup (l : list ResiItem) :
  NoDup (map resi l) -> oneIdentifier l -> length (inProgress l) <= 1.
Proof.
  unfold oneIdentifier, inProgress.
  induction l as [|a l IH]; cbn [map filter]; intros Hnd Hone; [cbn; lia|].
  inversion Hnd as [|? ? Hnotin Hnd']; subst.
  destruct (loading a) eqn:La.
  - destruct (filter loading l) as [|b bs] eqn:F; [cbn; lia|].
    exfalso. apply Hnotin.
    assert (Hb : In b (filter loading l)) by (rewrite F; left; reflexivity).
    rewrite (Hone a b); [| left; reflexivity | right; rewrite <- F; exact Hb ].
    apply in_map. apply filter_In in Hb. apply Hb.
  - apply IH; [exact Hnd'|]. exact Hone.
Qed.

(** Every collection the loop logs holds the identifiers it started with, and
    its in-progress records carry one identifier. *)
Lemma loopWorld_oneIdentifier (toks : list string) (rest : list ResiItem) (w : World) :
  Forall idle (resiList w) ->
  map resi (resiList w) = toks ->
  exists evs,
    events (loopWorld rest w) = events w ++ evs /\
    Forall (fun s => oneIdentifier s /\ map resi s = toks) (snapshots evs).
Proof.
  intros Hidle Hresi.
  apply (loopWorld_snapshots
           (fun l => Forall idle l /\ map resi l = toks)
           (fun s => oneIdentifier s /\ map resi s = toks)).
  - intros l r [Hl Hr]. split; [now apply markLoading_oneIdentifier|].
    now rewrite markLoading_resi.
  - intros w0 r [Hl Hr].
    assert (Forall idle (attemptList w0 r)) by now apply attemptList_idle.
    assert (map resi (attemptList w0 r) = toks) by now rewrite attemptList_resi.
    repeat split; auto. now apply idle_oneIdentifier.
  - split; assumption.
Qed.

Lemma freshItem_idle (toks : list string) : Forall idle (map freshItem toks).
Proof. apply Forall_map, Forall_forall. intros; reflexivity. Qed.

Lemma markLoading_exactly (r : string) (l : list ResiItem) (a : ResiItem) :
  Forall idle l -> In a (markLoading r l) -> (loading a = true <-> resi a = r).
Proof.
  intros Hl. unfold markLoading. rewrite in_map_iff. intros (x & Hx & Hin).
  rewrite Forall_forall in Hl. specialize (Hl x Hin). unfold idle in Hl.
  destruct (String.eqb (resi x) r) eqn:E; subst a.
  - apply String.eqb_eq in E. cbn. tauto.
  - apply String.eqb_neq in E. rewrite Hl. split; [discriminate | contradiction].
Qed.

Lemma attemptEvents_turn (w : World) (r : string) :
  exists noise,
    attemptEvents w r =
      EvSetResiList (markLoading r (resiList w)) :: EvFetch (trackUrl r)
      :: noise ++ [EvSetResiList (attemptList w r)] /\
    (noise = [] \/ exists msg t, noise = [EvConsoleError msg t]).
Proof.
  unfold attemptEvents. destruct (attemptOutcome w r) as [t|d].
  - exists [EvConsoleError ("Error tracking " ++ r ++ ":") t]. split; [reflexivity|].
    right. eauto.
  - exists []. split; [reflexivity | left; reflexivity].
Qed.

(** The log of the loop, started on a collection without in-progress record,
    is made of its turns. *)
Lemma loopWorld_turns (toks : list string) (rest : list ResiItem) (w : World) :
  Forall idle (resiList w) ->
  map resi (resiList w) = toks ->
  exists evs,
    events (loopWorld rest w) = events w ++ evs /\
    turnsOf toks (map resi rest) evs.
Proof.
  revert w. induction rest as [|item rest IH]; intros w Hidle Hresi.
  - exists []. cbn. rewrite app_nil_r. auto.
  - cbn [loopWorld].
    destruct (afterPause_fields rest (afterAttempt w (resi item)))
      as (_ & Pl & _ & Pe).
    destruct (IH (afterPause rest (afterAttempt w (resi item))))
      as (evs & He & Hturns).
    { rewrite Pl. now apply attemptList_idle. }
    { rewrite Pl. cbn [afterAttempt resiList]. now rewrite attemptList_resi. }
    destruct (attemptEvents_turn w (resi item)) as (noise & Hev & Hnoise).
    exists (attemptEvents w (resi item) ++ pauseAfter (map resi rest) ++ evs).
    split.
    + rewrite He, Pe. cbn [afterAttempt events]. rewrite <- !app_assoc.
      destruct rest; reflexivity.
    + cbn [map turnsOf].
      exists (markLoading (resi item) (resiList w)), noise,
        (attemptList w (resi item)), evs.
      split; [rewrite Hev; cbn [app]; rewrite <- app_assoc; reflexivity|].
      split; [exact Hnoise|].
      split; [now rewrite markLoading_resi|].
      split; [intros a; now apply markLoading_exactly|].
      split; [now rewrite attemptList_resi|].
      split; [now apply idle_inProgress, attemptList_idle | exact Hturns].
Qed.

(** C3, as the code has it.  In a batch run that no other handler
    interleaves with (the run [exec processResi] is), the requests are issued one
    after the other in the order of the records, with a pause of 1000 ms
    between two requests and none after the last (N-1 pauses for N records).
    The log is the fresh batch, the flag, and one turn per record: a turn
    writes a collection whose in-progress records are exactly the records
    carrying its identifier, all of them when the identifier is repeated,
    issues the request for that identifier, and writes a collection without
    in-progress record when the lookup has resolved.  So at every instant the
    in-progress records all carry the identifier whose lookup is in flight,
    and at most one record is in progress when the identifiers of the batch
    are pairwise distinct.  Whatever collection they are applied to, hence
    whatever else runs meanwhile, the mark of a turn raises the in-progress
    flag of the records carrying its identifier and the stored outcome lowers
    it, and neither touches the flag of any other record. *)
Theorem C3_sequential_pacing (w : World) :
  keyMissing = false ->
  parseResi (resiNumbers w) <> [] ->
  let toks := parseResi (resiNumbers w) in
  let evs := newEvents w (exec processResi w) in
  pacing evs = schedule (map trackUrl toks) /\
  fetches evs = map trackUrl toks /\
  delays evs = repeat 1000%Z (length toks - 1) /\
  Forall oneIdentifier (snapshots evs) /\
  (NoDup toks -> Forall (fun s => length (inProgress s) <= 1) (snapshots evs)) /\
  (exists mid,
     evs = EvSetResiList (map freshItem toks) :: EvSetIsTracking true
           :: mid ++ [EvSetIsTracking false] /\
     inProgress (map freshItem toks) = [] /\
     turnsOf toks toks mid) /\
  (forall r prev i a,
     nth_error prev i = Some a ->
     exists b,
       nth_error (markLoading r prev) i = Some b /\
       resi b = resi a /\
       loading b = (String.eqb (resi a) r || loading a)%bool) /\
  (forall r res n prev i a,
     nth_error prev i = Some a ->
     exists b,
       nth_error (settle r res n prev) i = Some b /\
       resi b = resi a /\
       loading b = (negb (String.eqb (resi a) r) && loading a)%bool).
Proof.
  intros K Hne toks evs.
  destruct (processResi_log w K Hne) as (mid & Hev & Hp & Hf & Hmid).
  fold toks in Hev, Hp, Hmid. fold evs in Hev.
  assert (Hpace : pacing evs = schedule (map trackUrl toks)).
  { rewrite Hev. cbn [pacing]. rewrite pacing_app, Hp. cbn. apply app_nil_r. }
  assert (Hsnap : Forall (fun s => oneIdentifier s /\ map resi s = toks)
                         (snapshots evs)).
  { destruct (loopWorld_oneIdentifier toks (map freshItem toks)
                (started w (map freshItem toks)))
      as (evs' & He' & Hs').
    - apply freshItem_idle.
    - apply freshItem_resi.
    - rewrite Hmid in He'. apply app_inv_head in He'. subst evs'.
      rewrite Hev. cbn [snapshots]. rewrite snapshots_app. cbn [snapshots].
      rewrite app_nil_r. constructor; [|exact Hs'].
      split; [apply idle_oneIdentifier, freshItem_idle | apply freshItem_resi]. }
  assert (Hturns : turnsOf toks toks mid).
  { destruct (loopWorld_turns toks (map freshItem toks)
                (started w (map freshItem toks)))
      as (evs' & He' & Ht').
    - apply freshItem_idle.
    - apply freshItem_resi.
    - rewrite Hmid in He'. apply app_inv_head in He'. subst evs'.
      rewrite freshItem_resi in Ht'. exact Ht'. }
  split; [exact Hpace|].
  split; [rewrite <- fetches_pacing, Hpace; apply fetches_schedule|].
  split; [rewrite <- delays_pacing, Hpace, delays_schedule, length_map; reflexivity|].
  split; [eapply Forall_impl; [|exact Hsnap]; intros s Hs; apply Hs|].
  split.
  { intros Hnd. eapply Forall_impl; [|exact Hsnap]. intros s [Hone Hr].
    apply oneIdentifier_NoDup; [rewrite Hr; exact Hnd | exact Hone]. }
  split.
  { exists mid. split; [exact Hev|].
    split; [apply idle_inProgress, freshItem_idle | exact Hturns]. }
  split.
  - intros r prev i a Ha. unfold markLoading. rewrite nth_error_map, Ha.
    cbn [option_map]. eexists. split; [reflexivity|].
    destruct (String.eqb (resi a) r); cbn; auto.
  - intros r res n prev i a Ha. unfold settle, storeData, storeError.
    destruct res; rewrite nth_error_map, Ha; cbn [option_map];
      (eexists; split; [reflexivity|]);
      destruct (String.eqb (resi a) r); cbn; auto.
Qed.

(** * The batch-in-progress flag *)

(** C7.  An accepted submission raises the flag right after it has replaced
    the batch and before any request, never writes it during the loop, and
    lowers it as its very last effect, after every request and every stored
    outcome; a rejected submission does not write it; [trackSingleResi]
    never writes it, with or without the credential. *)
Theorem C7_tracking_flag (w : World) (r : string) :
  (keyMissing = false ->
   parseResi (resiNumbers w) <> [] ->
   exists mid,
     newEvents w (exec processResi w) =
       EvSetResiList (map freshItem (parseResi (resiNumbers w)))
       :: EvSetIsTracking true :: mid ++ [EvSetIsTracking false] /\
     flagWrites mid = [] /\
     fetches mid = map trackUrl (parseResi (resiNumbers w)) /\
     isTracking (exec processResi w) = false) /\
  (keyMissing = true \/ parseResi (resiNumbers w) = [] ->
   flagWrites (newEvents w (exec processResi w)) = [] /\
   isTracking (exec processResi w) = isTracking w) /\
  flagWrites (newEvents w (exec (trackSingleResi r) w)) = [] /\
  isTracking (exec (trackSingleResi r) w) = isTracking w.
Proof.
  split; [|split].
  - intros K Hne.
    destruct (processResi_log w K Hne) as (mid & Hev & Hp & Hf & _).
    exists mid. repeat split; auto.
    + rewrite <- fetches_pacing, Hp. apply fetches_schedule.
    + rewrite (processResi_run w K Hne). reflexivity.
  - intros H. destruct (processResi_rejected w H) as [msg Hm].
    rewrite Hm. rewrite (newEvents_app w (alerted w msg) [EvAlert msg]); auto.
  - destruct keyMissing eqn:K.
    + rewrite (trackSingleResi_rejected r w K).
      rewrite (newEvents_app w _ [EvAlert "API Key tidak ditemukan"]); auto.
    + rewrite (trackSingleResi_run r w K).
      rewrite (newEvents_app w _ (attemptEvents w r)); [|reflexivity].
      split; [apply attemptEvents_flagWrites | reflexivity].
Qed.

(** * Outcome of a lookup on the records *)

Lemma attemptList_nth (w : World) (r : string) (i : nat) (a : ResiItem) :
  nth_error (resiList w) i = Some a ->
  exists b,
    nth_error (attemptList w r) i = Some b /\
    if String.eqb (resi a) r
    then resi b = r /\ reflects (attemptOutcome w r) b /\ completed b
    else b = a.
Proof.
  intros H. rewrite attemptList_map, nth_error_map, H. cbn [option_map].
  eexists. split; [reflexivity|]. cbn beta.
  destruct (String.eqb (resi a) r) eqn:E; [|reflexivity].
  destruct (settledItem_facts (attemptOutcome w r)
              (stampOf (attemptOutcome w r) (length (events w))) a)
    as (Hr & Hrefl & Hc).
  apply String.eqb_eq in E. split; [congruence|]. split; assumption.
Qed.


Lemma exactlyOne_iff (item : ResiItem) :
  exactlyOne item <->
  ((r_data item <> None /\ error item = None) \/
   (r_data item = None /\ error item <> None)).
Proof.
  unfold exactlyOne. split.
  - intros [(d & -> & ->)|(m & -> & ->)]; [left | right]; split; congruence.
  - intros [[Hd He]|[Hd He]].
    + left. destruct (r_data item) as [d|]; [eauto | contradiction].
    + right. destruct (error item) as [m|]; [eauto | contradiction].
Qed.

(** * Mutations are keyed by the identifier *)

(** C5.  Each of the three updaters rewrites every record whose identifier
    is the given string, at whatever positions they stand, and no other
    record; a refresh and one turn of the batch loop change the collection
    by these updaters only: first the mark, then the outcome, both keyed by
    the tracking number. *)
Theorem C5_mutations_keyed_by_identifier (r : string) :
  (forall prev i a,
     nth_error prev i = Some a ->
     nth_error (markLoading r prev) i =
     Some (if String.eqb (resi a) r
           then mkResiItem (resi a) (r_data a) true None (lastUpdated a)
           else a)) /\
  (forall d ts prev i a,
     nth_error prev i = Some a ->
     nth_error (storeData r d ts prev) i =
     Some (if String.eqb (resi a) r
           then mkResiItem (resi a) (Some d) false None (Some ts)
           else a)) /\
  (forall msg ts prev i a,
     nth_error prev i = Some a ->
     nth_error (storeError r msg ts prev) i =
     Some (if String.eqb (resi a) r
           then mkResiItem (resi a) None false (Some msg) (Some ts)
           else a)) /\
  (forall w,
     keyMissing = false ->
     let marked := markLoading r (resiList w) in
     let settled := settle r (attemptOutcome w r) (length (events w)) marked in
     snapshots (newEvents w (exec (trackSingleResi r) w)) = [marked; settled] /\
     snapshots (newEvents w (exec (attempt r) w)) = [marked; settled]) /\
  (forall item rest w,
     keyMissing = false ->
     resi item = r ->
     exec (batchLoop (item :: rest)) w =
     exec (batchLoop rest) (afterPause rest (exec (attempt r) w))).
Proof.
  split; [|split; [|split; [|split]]].
  - intros prev i a H. unfold markLoading. rewrite nth_error_map, H. reflexivity.
  - intros d ts prev i a H. unfold storeData. rewrite nth_error_map, H. reflexivity.
  - intros msg ts prev i a H. unfold storeError. rewrite nth_error_map, H. reflexivity.
  - intros w K marked settled. split.
    + rewrite (trackSingleResi_run r w K).
      rewrite (newEvents_app w _ (attemptEvents w r)); [|reflexivity].
      apply attemptEvents_snapshots.
    + unfold exec. rewrite (attempt_run r w K). cbn [snd].
      rewrite (newEvents_app w _ (attemptEvents w r)); [|reflexivity].
      apply attemptEvents_snapshots.
  - intros item rest w K <-. unfold exec.
    rewrite !(batchLoop_run _ _ K), (attempt_run _ _ K). reflexivity.
Qed.

(** * A refresh of an unknown identifier *)

Lemma keyed_map_absent (f : ResiItem -> ResiItem) (r : string) (l : list ResiItem) :
  ~ In r (map resi l) ->
  map (fun item => if String.eqb (resi item) r then f item else item) l = l.
Proof.
  intros H. rewrite <- (map_id l) at 2. apply map_ext_in. intros a Ha.
  destruct (String.eqb (resi a) r) eqn:E; [|reflexivity].
  apply String.eqb_eq in E. exfalso. apply H. rewrite <- E. now apply in_map.
Qed.

(** C10.  With the credential configured, a refresh of an identifier that no
    record carries issues exactly one request, for that identifier, and both
    collections it writes are the collection it found. *)
Theorem C10_refresh_of_unknown_identifier (w : World) (r : string) :
  keyMissing = false ->
  ~ In r (map resi (resiList w)) ->
  let w' := exec (trackSingleResi r) w in
  fetches (newEvents w w') = [trackUrl r] /\
  resiList w' = resiList w /\
  snapshots (newEvents w w') = [resiList w; resiList w].
Proof.
  intros K Hnot w'. unfold w'. rewrite (trackSingleResi_run r w K).
  rewrite (newEvents_app w _ (attemptEvents w r)); [|reflexivity].
  assert (Hm : markLoading r (resiList w) = resiList w)
    by (apply keyed_map_absent; exact Hnot).
  assert (Ha : attemptList w r = resiList w)
    by (rewrite attemptList_map; apply keyed_map_absent; exact Hnot).
  repeat split.
  - rewrite <- fetches_pacing, attemptEvents_pacing. reflexivity.
  - exact Ha.
  - rewrite attemptEvents_snapshots, Hm, Ha. reflexivity.
Qed.

(** * Payload and error exclude each other *)

Lemma markLoading_notBoth (r : string) (prev : list ResiItem) :
  Forall notBoth prev -> Forall notBoth (markLoading r prev).
Proof.
  intros H. apply Forall_map. eapply Forall_impl; [|exact H].
  intros a Ha. cbn beta. destruct (String.eqb (resi a) r); [right; reflexivity | exact Ha].
Qed.

Lemma storeData_notBoth (r : string) (d : TrackingData) (ts : string)
  (prev : list ResiItem) :
  Forall notBoth prev -> Forall notBoth (storeData r d ts prev).
Proof.
  intros H. apply Forall_map. eapply Forall_impl; [|exact H].
  intros a Ha. cbn beta. destruct (String.eqb (resi a) r); [right; reflexivity | exact Ha].
Qed.

Lemma storeError_notBoth (r msg ts : string) (prev : list ResiItem) :
  Forall notBoth prev -> Forall notBoth (storeError r msg ts prev).
Proof.
  intros H. apply Forall_map. eapply Forall_impl; [|exact H].
  intros a Ha. cbn beta. destruct (String.eqb (resi a) r); [left; reflexivity | exact Ha].
Qed.

Lemma attemptList_notBoth (w : World) (r : string) :
  Forall notBoth (resiList w) -> Forall notBoth (attemptList w r).
Proof.
  intros H. unfold attemptList, settle.
  destruct (attemptOutcome w r);
    [apply storeError_notBoth | apply storeData_notBoth];
    now apply markLoading_notBoth.
Qed.

Lemma processResi_notBoth (w : World) :
  Forall (Forall notBoth) (snapshots (newEvents w (exec processResi w))).
Proof.
  destruct keyMissing eqn:K.
  { destruct (processResi_rejected w (or_introl K)) as [msg Hm].
    rewrite Hm, (newEvents_app w _ [EvAlert msg]); [constructor | reflexivity]. }
  destruct (parseResi (resiNumbers w)) as [|r0 rs] eqn:P.
  { destruct (processResi_rejected w (or_intror P)) as [msg Hm].
    rewrite Hm, (newEvents_app w _ [EvAlert msg]); [constructor | reflexivity]. }
  assert (Hne : parseResi (resiNumbers w) <> []) by (rewrite P; discriminate).
  destruct (processResi_log w K Hne) as (mid & Hev & _ & _ & Hmid).
  rewrite Hev. set (new := map freshItem (parseResi (resiNumbers w))) in *.
  assert (Hnew : Forall notBoth new).
  { apply Forall_map, Forall_forall. intros; left; reflexivity. }
  destruct (loopWorld_snapshots (Forall notBoth) (Forall notBoth)
              (fun l r1 => markLoading_notBoth r1 l)
              (fun w0 r0 H => conj (attemptList_notBoth w0 r0 H)
                                   (attemptList_notBoth w0 r0 H))
              new (started w new) Hnew) as [_ (evs & He & Hs)].
  rewrite Hmid in He. apply app_inv_head in He. subst evs.
  cbn [snapshots]. rewrite snapshots_app. cbn [snapshots]. rewrite app_nil_r.
  constructor; assumption.
Qed.

(** C6, as the code has it.  Payload and error of a record are never both
    set: each updater keeps that, whatever collection it is applied to, and
    so does every collection a refresh or a submission writes.  A lookup
    attempt starts by clearing the error of the records carrying its
    identifier and marking them in progress; it leaves their payload as it
    was.  When the lookup resolves, exactly one of payload and error is
    set. *)
Theorem C6_payload_and_error_exclusive (w : World) (r : string) :
  Forall notBoth (resiList w) ->
  (Forall notBoth (markLoading r (resiList w)) /\
   (forall d ts, Forall notBoth (storeData r d ts (resiList w))) /\
   (forall msg ts, Forall notBoth (storeError r msg ts (resiList w)))) /\
  Forall (Forall notBoth) (snapshots (newEvents w (exec (trackSingleResi r) w))) /\
  Forall (Forall notBoth) (snapshots (newEvents w (exec processResi w))) /\
  (forall i a,
     nth_error (resiList w) i = Some a ->
     resi a = r ->
     exists b,
       nth_error (markLoading r (resiList w)) i = Some b /\
       error b = None /\ r_data b = r_data a /\ loading b = true) /\
  (keyMissing = false ->
   forall i a,
     nth_error (resiList w) i = Some a ->
     resi a = r ->
     exists b,
       nth_error (resiList (exec (trackSingleResi r) w)) i = Some b /\
       exactlyOne b).
Proof.
  intros H. split; [|split; [|split; [|split]]].
  - repeat split; intros;
      [apply markLoading_notBoth | apply storeData_notBoth | apply storeError_notBoth];
      exact H.
  - destruct keyMissing eqn:K.
    + rewrite (trackSingleResi_rejected r w K).
      rewrite (newEvents_app w _ [EvAlert "API Key tidak ditemukan"]);
        [constructor | reflexivity].
    + rewrite (trackSingleResi_run r w K).
      rewrite (newEvents_app w _ (attemptEvents w r)); [|reflexivity].
      rewrite attemptEvents_snapshots.
      repeat constructor;
        [now apply markLoading_notBoth | now apply attemptList_notBoth].
  - apply processResi_notBoth.
  - intros i a Ha Hr. unfold markLoading. rewrite nth_error_map, Ha.
    cbn [option_map]. apply String.eqb_eq in Hr. rewrite Hr.
    eexists. split; [reflexivity|]. cbn. auto.
  - intros K i a Ha Hr.
    destruct (attemptList_nth w r i a Ha) as (b & Hb & Hif).
    apply String.eqb_eq in Hr. rewrite Hr in Hif.
    exists b. rewrite (trackSingleResi_run r w K). split; [exact Hb|].
    apply Hif.
Qed.

(** * Export *)

Lemma exportable_successful (item : ResiItem) :
  isSuccessful item = false -> exportable item = None.
Proof.
  unfold isSuccessful, exportable. destruct (r_data item) as [d|]; [|reflexivity].
  intros ->. destruct (data d); reflexivity.
Qed.

(** C8, as the code has it.  Both versions of the export produce exactly one
    row per record, in the order of the batch, and no row for an empty batch.
    The page version gives each row the eight cells identifier, status or
    ERROR, service, date, shipper, receiver, latest history description and
    error message.  The component version gives each row four of them:
    identifier, receiver, latest history description and error message, with
    the values the page version has.  For a record that is not exportable
    (no payload, no shipment in it, or a status other than 200) the error
    message is the stored error, or the default text when no error or an
    empty one is stored. *)
Theorem C8_export_rows (l : list ResiItem) :
  length (Page.exportToExcel l) = length l /\
  length (Component.exportToExcel l) = length l /\
  Page.exportToExcel [] = [] /\
  Component.exportToExcel [] = [] /\
  forall i item,
    nth_error l i = Some item ->
    exists prow crow,
      nth_error (Page.exportToExcel l) i = Some prow /\
      nth_error (Component.exportToExcel l) i = Some crow /\
      map fst prow = pageColumns /\
      map fst crow = componentColumns /\
      (forall col, In col componentColumns -> cell col crow = cell col prow) /\
      cell "No Resi" prow = Some (resi item) /\
      match exportable item with
      | Some sh =>
          cell "Status" prow = Some (s_status (summary sh)) /\
          cell "Layanan" prow = Some (service (summary sh)) /\
          cell "Tanggal" prow = Some (s_date (summary sh)) /\
          cell "Pengirim" prow = Some (shipper (detail sh)) /\
          cell "Penerima" prow = Some (receiver (detail sh)) /\
          cell "Status Terakhir" prow =
            Some (match history sh with h :: _ => h_desc h | [] => "-" end) /\
          cell "Pesan Error" prow = Some ""
      | None =>
          cell "Status" prow = Some "ERROR" /\
          cell "Layanan" prow = Some "-" /\
          cell "Tanggal" prow = Some "-" /\
          cell "Pengirim" prow = Some "-" /\
          cell "Penerima" prow = Some "-" /\
          cell "Status Terakhir" prow = Some "-" /\
          cell "Pesan Error" prow =
            Some (match error item with
                  | Some e => if Js.truthy e then e else "Data tidak ditemukan"
                  | None => "Data tidak ditemukan"
                  end)
      end /\
      (isSuccessful item = false -> exportable item = None).
Proof.
  unfold Page.exportToExcel, Component.exportToExcel.
  rewrite !length_map. repeat split.
  intros i item Hi. rewrite !nth_error_map, Hi. cbn [option_map].
  do 2 eexists. split; [reflexivity|]. split; [reflexivity|].
  unfold Page.exportRow, Component.exportRow.
  pose proof (exportable_successful item) as Hs.
  destruct (exportable item) as [sh|]; cbn [map fst].
  - repeat split; try reflexivity; try exact Hs.
    intros col Hcol. cbn in Hcol.
    destruct Hcol as [<-|[<-|[<-|[<-|[]]]]]; reflexivity.
  - repeat split; try reflexivity; try exact Hs.
    intros col Hcol. cbn in Hcol.
    destruct Hcol as [<-|[<-|[<-|[<-|[]]]]]; reflexivity.
Qed.

(** * Status 201 *)

Lemma readResponse_accepts (http : N) (d : TrackingData) :
  responseOk http = true ->
  (readResponse (FetchResponse http (JsonValue d)) = inr d <->
   (status d = 200 \/ status d = 201)%Z).
Proof.
  intros Hok. unfold readResponse. rewrite Hok. cbn [negb].
  destruct (status d =? 200)%Z eqn:E1; destruct (status d =? 201)%Z eqn:E2;
    cbn [negb andb]; rewrite ?Z.eqb_eq, ?Z.eqb_neq in *;
    split; intros H; auto; try discriminate.
  destruct H; contradiction.
Qed.

Lemma consumers_only_200 (item : ResiItem) (d : TrackingData) :
  r_data item = Some d ->
  (isSuccessful item = true <-> status d = 200%Z) /\
  (status d <> 200%Z ->
   isSuccessful item = false /\ isFailed item = true /\
   exportable item = None /\
   showsNotFoundPanel item = true /\ showsResultPanel item = false).
Proof.
  intros Hd.
  unfold isSuccessful, isFailed, exportable, showsNotFoundPanel, showsResultPanel.
  rewrite Hd. split; [apply Z.eqb_eq|].
  intros Hne. apply Z.eqb_neq in Hne. rewrite Hne. cbn.
  destruct (data d); auto.
Qed.

(** C9.  [trackResi] returns the body of an OK response exactly when its
    embedded status is 200 or 201.  Every reader of a stored payload (the two
    counters, the export, the result and not-found panels) takes status 200
    alone for success.  So when a lookup answers with status 201, the records
    carrying the identifier hold the payload and no error, a successful
    lookup, and yet they are not counted successful, are counted failed, are
    exported as an ERROR row with the default not-found text, and show the
    not-found panel instead of the result panel. *)
Theorem C9_status_201_counted_as_failure
  (w : World) (r : string) (http : N) (d : TrackingData) :
  (forall http' d',
     responseOk http' = true ->
     (readResponse (FetchResponse http' (JsonValue d')) = inr d' <->
      (status d' = 200 \/ status d' = 201)%Z)) /\
  (forall item d',
     r_data item = Some d' ->
     (isSuccessful item = true <-> status d' = 200%Z) /\
     (status d' <> 200%Z ->
      isSuccessful item = false /\ isFailed item = true /\
      exportable item = None /\
      showsNotFoundPanel item = true /\ showsResultPanel item = false)) /\
  (keyMissing = false ->
   remote (S (length (events w))) (trackUrl r) = FetchResponse http (JsonValue d) ->
   responseOk http = true ->
   status d = 201%Z ->
   forall i a,
     nth_error (resiList w) i = Some a ->
     resi a = r ->
     exists b,
       nth_error (resiList (exec (trackSingleResi r) w)) i = Some b /\
       r_data b = Some d /\ error b = None /\ loading b = false /\
       successfulTrackings [b] = 0 /\ failedTrackings [b] = 1 /\
       cell "Status" (Page.exportRow b) = Some "ERROR" /\
       cell "Pesan Error" (Page.exportRow b) = Some "Data tidak ditemukan" /\
       cell "Pesan Error" (Component.exportRow b) = Some "Data tidak ditemukan" /\
       showsNotFoundPanel b = true /\ showsResultPanel b = false /\
       showsErrorPanel b = false).
Proof.
  split; [exact readResponse_accepts|]. split; [exact consumers_only_200|].
  intros K Hrem Hok H201 i a Ha Hr.
  destruct (attemptList_nth w r i a Ha) as (b & Hb & Hif).
  apply String.eqb_eq in Hr. rewrite Hr in Hif. destruct Hif as (_ & Hrefl & _ & Hload).
  assert (Hout : attemptOutcome w r = inr d).
  { unfold attemptOutcome. rewrite Hrem. apply readResponse_accepts; auto. }
  rewrite Hout in Hrefl. destruct Hrefl as [Hd He].
  assert (Hne : status d <> 200%Z) by lia.
  destruct (consumers_only_200 b d Hd) as [_ Hcons].
  destruct (Hcons Hne) as (Hs & Hf & Hx & Hnf & Hrp).
  exists b. rewrite (trackSingleResi_run r w K).
  unfold successfulTrackings, failedTrackings, Page.exportRow, Component.exportRow,
    showsErrorPanel, errorCell.
  cbn [filter]. rewrite Hs, Hf, Hx, He. cbn. repeat split; auto.
Qed.

(** * Identifiers of a batch *)

Lemma trimStart_noSep (s : string) :
  noSep s = true -> noSep (Js.trimStart s) = true.
Proof.
  induction s as [|c s IH]; cbn [Js.trimStart noSep]; [reflexivity|].
  intros H. destruct (Js.isWhite c); [|exact H].
  apply andb_prop in H as [_ H]. now apply IH.
Qed.

Lemma trimEnd_noSep (s : string) :
  noSep s = true -> noSep (Js.trimEnd s) = true.
Proof.
  induction s as [|c s IH]; cbn [Js.trimEnd noSep]; [reflexivity|].
  intros H. apply andb_prop in H as [Hc Hs]. specialize (IH Hs).
  destruct (Js.trimEnd s) as [|c' t].
  - destruct (Js.isWhite c); [reflexivity|]. cbn. now rewrite Hc.
  - cbn [noSep]. cbn [noSep] in IH. now rewrite Hc, IH.
Qed.

Lemma trimEnd_idem (s : string) : Js.trimEnd (Js.trimEnd s) = Js.trimEnd s.
Proof.
  induction s as [|c s IH]; cbn [Js.trimEnd]; [reflexivity|].
  destruct (Js.trimEnd s) as [|c' t] eqn:E.
  - destruct (Js.isWhite c) eqn:W; [reflexivity|]. cbn. now rewrite W.
  - cbn [Js.trimEnd]. cbn [Js.trimEnd] in IH. rewrite IH. reflexivity.
Qed.

Lemma trimEnd_head (c : ascii) (s : string) :
  Js.isWhite c = false -> exists t, Js.trimEnd (String c s) = String c t.
Proof.
  intros W. cbn [Js.trimEnd]. destruct (Js.trimEnd s); rewrite ?W; eauto.
Qed.

Lemma trim_idem (s : string) : Js.trim (Js.trim s) = Js.trim s.
Proof.
  unfold Js.trim. destruct (Js.trimStart s) as [|c u] eqn:E; [reflexivity|].
  pose proof (trimStart_head s c u E) as W.
  destruct (trimEnd_head c u W) as [t Ht]. rewrite Ht.
  cbn [Js.trimStart]. rewrite W, <- Ht. apply trimEnd_idem.
Qed.

Lemma parseResi_clean (text : string) : Forall cleanResi (parseResi text).
Proof.
  apply Forall_forall. intros r Hr.
  destruct (parseResi_valid text r Hr) as (Hne & Hp & t & Ht & ->).
  repeat split; auto.
  - unfold Js.trim. apply trimEnd_noSep, trimStart_noSep.
    pose proof (split_noSep text false) as HF. rewrite Forall_forall in HF.
    now apply HF.
  - apply trim_idem.
Qed.

Lemma processResi_resi (w : World) :
  keyMissing = false ->
  parseResi (resiNumbers w) <> [] ->
  map resi (resiList (exec processResi w)) = parseResi (resiNumbers w).
Proof.
  intros K Hne. rewrite (processResi_list w K Hne), loopWorld_resi.
  cbn [started resiList]. apply freshItem_resi.
Qed.

(** X1.  Every token a submission keeps is not empty, starts with P, holds no
    comma and no newline, and has no white space around it (trimming it
    again changes nothing); these are the identifiers of the records of an
    accepted batch, to its end. *)
Theorem batch_identifiers_clean (w : World) :
  Forall cleanResi (parseResi (resiNumbers w)) /\
  (keyMissing = false ->
   parseResi (resiNumbers w) <> [] ->
   Forall (fun b => cleanResi (resi b)) (resiList (exec processResi w))).
Proof.
  split; [apply parseResi_clean|].
  intros K Hne. rewrite <- Forall_map, (processResi_resi w K Hne).
  apply parseResi_clean.
Qed.

(** * Copying a batch and pasting it back *)

Lemma splitFrom_noSep (s : string) :
  noSep s = true -> forall b, Js.splitFrom b s = [s].
Proof.
  induction s as [|c s IH]; cbn [noSep Js.splitFrom]; [reflexivity|].
  intros H b. apply andb_prop in H as [Hc Hs].
  apply negb_true_iff in Hc. rewrite Hc, (IH Hs). reflexivity.
Qed.

Lemma splitFrom_line (t s : string) :
  noSep t = true ->
  Js.splitFrom false (t ++ Js.nl ++ s) = t :: Js.splitFrom true s.
Proof.
  induction t as [|c t IH]; cbn [noSep append]; intros H.
  - reflexivity.
  - apply andb_prop in H as [Hc Ht]. apply negb_true_iff in Hc.
    cbn [Js.splitFrom]. rewrite Hc, (IH Ht). reflexivity.
Qed.

Lemma splitFrom_lines (toks : list string) :
  Forall (fun t => noSep t = true /\ t <> EmptyString) toks ->
  toks <> [] ->
  forall b, Js.splitFrom b (String.concat Js.nl toks) = toks.
Proof.
  induction 1 as [|t toks [Ht Hne] HF IH]; intros Hnil b; [contradiction|].
  destruct toks as [|t2 rest].
  - cbn [String.concat]. now apply splitFrom_noSep.
  - cbn [String.concat].
    destruct t as [|c t]; [contradiction|].
    cbn [noSep] in Ht. apply andb_prop in Ht as [Hc Ht].
    apply negb_true_iff in Hc.
    cbn [append Js.splitFrom]. rewrite Hc.
    rewrite (splitFrom_line t _ Ht), IH; [reflexivity | discriminate].
Qed.

Lemma keepValid_clean (toks : list string) :
  Forall cleanResi toks -> keepValid toks = toks.
Proof.
  unfold keepValid. induction 1 as [|t toks (Hne & Hp & _ & Htrim) _ IH];
    [reflexivity|].
  cbn [map filter]. rewrite Htrim, IH. unfold validResi. rewrite Hp.
  destruct t; [contradiction | reflexivity].
Qed.

Lemma parseResi_lines (toks : list string) :
  Forall cleanResi toks -> parseResi (String.concat Js.nl toks) = toks.
Proof.
  intros H. destruct toks as [|t toks]; [reflexivity|].
  unfold parseResi, Js.split. rewrite splitFrom_lines.
  - now apply keepValid_clean.
  - eapply Forall_impl; [|exact H]. intros r (Hne & _ & Hs & _). auto.
  - discriminate.
Qed.

(** X2.  Copy-all followed by paste is the identity on a batch: the text
    [copyAllResi] puts on the clipboard parses back to the identifiers of the
    records, in order, whenever these are clean; so for the batch an accepted
    submission leaves, it parses to the very tokens that were submitted. *)
Theorem copy_all_round_trip (w : World) :
  (forall l,
     Forall (fun b => cleanResi (resi b)) l ->
     parseResi (copyAllText l) = map resi l) /\
  (keyMissing = false ->
   parseResi (resiNumbers w) <> [] ->
   parseResi (copyAllText (resiList (exec processResi w))) =
   parseResi (resiNumbers w)).
Proof.
  split.
  - intros l H. unfold copyAllText. apply parseResi_lines.
    now apply Forall_map.
  - intros K Hne. unfold copyAllText. rewrite (processResi_resi w K Hne).
    apply parseResi_lines, parseResi_clean.
Qed.

(** * Parsing a text piece by piece *)

Lemma keepValid_app (a b : list string) :
  keepValid (a ++ b) = keepValid a ++ keepValid b.
Proof. unfold keepValid. now rewrite map_app, filter_app. Qed.

Lemma keepValid_cons (t : string) (l : list string) :
  keepValid (t :: l) = keepValid [t] ++ keepValid l.
Proof. apply (keepValid_app [t] l). Qed.

Lemma keepValid_flag (s : string) :
  keepValid (Js.splitFrom true s) = keepValid (Js.splitFrom false s).
Proof.
  destruct s as [|c s]; [reflexivity|]. cbn [Js.splitFrom].
  destruct (Js.isSep c); reflexivity.
Qed.

Lemma splitFrom_append (sep : ascii) (a b : string) :
  Js.isSep sep = true ->
  keepValid (Js.splitFrom true (a ++ String sep b)) =
    keepValid (Js.splitFrom true a) ++ keepValid (Js.splitFrom true b) /\
  exists h t t',
    Js.splitFrom false a = h :: t /\
    Js.splitFrom false (a ++ String sep b) = h :: t' /\
    keepValid t' = keepValid t ++ keepValid (Js.splitFrom true b).
Proof.
  intros Hsep. induction a as [|c a [IH1 (h & t & t' & Ha & Hab & Ht)]].
  - cbn [append Js.splitFrom]. rewrite Hsep. split; [reflexivity|].
    exists EmptyString, [], (Js.splitFrom true b). auto.
  - cbn [append Js.splitFrom]. destruct (Js.isSep c).
    + split; [exact IH1|].
      exists EmptyString, (Js.splitFrom true a),
        (Js.splitFrom true (a ++ String sep b)). auto.
    + rewrite Ha, Hab. split.
      * rewrite (keepValid_cons _ t'), (keepValid_cons _ t), Ht.
        now rewrite app_assoc.
      * exists (String c h), t, t'. auto.
Qed.

(** X3.  Parsing distributes over joining two texts by a comma or a newline: the
    tokens kept from the whole are those kept from the first text followed by
    those kept from the second, whatever separators or blank lines the two
    texts begin or end with. *)
Theorem parse_appended_text (a b : string) :
  parseResi (a ++ "," ++ b) = parseResi a ++ parseResi b /\
  parseResi (a ++ Js.nl ++ b) = parseResi a ++ parseResi b.
Proof.
  assert (H : forall sep, Js.isSep sep = true ->
                parseResi (a ++ String sep b) = parseResi a ++ parseResi b).
  { intros sep Hsep.
    destruct (splitFrom_append sep a b Hsep) as [_ (h & t & t' & Ha & Hab & Ht)].
    unfold parseResi, Js.split. fold (keepValid (Js.splitFrom false (a ++ String sep b))).
    fold (keepValid (Js.splitFrom false a)) (keepValid (Js.splitFrom false b)).
    rewrite Ha, Hab, (keepValid_cons h t'), (keepValid_cons h t), Ht.
    now rewrite keepValid_flag, app_assoc. }
  split; apply H; reflexivity.
Qed.

(** * The two counters *)

Lemma counted_once (item : ResiItem) :
  notBoth item -> isFailed item = negb (isSuccessful item).
Proof.
  unfold notBoth, isFailed, isSuccessful.
  destruct (r_data item) as [d|]; intros [H|H]; try discriminate; try reflexivity.
  rewrite H. cbn. apply orb_false_r.
Qed.

Lemma counted_at_least_once (item : ResiItem) :
  isSuccessful item = false -> isFailed item = true.
Proof.
  unfold isFailed, isSuccessful. destruct (r_data item) as [d|]; [|reflexivity].
  intros ->. reflexivity.
Qed.

Lemma counters_cover (l : list ResiItem) :
  length l <= successfulTrackings l + failedTrackings l.
Proof.
  unfold successfulTrackings, failedTrackings.
  induction l as [|a l IH]; cbn [filter length]; [lia|].
  destruct (isSuccessful a) eqn:S.
  - destruct (isFailed a); cbn [length]; lia.
  - rewrite (counted_at_least_once a S). cbn [length]. lia.
Qed.

Lemma counters_partition (l : list ResiItem) :
  Forall notBoth l -> successfulTrackings l + failedTrackings l = length l.
Proof.
  unfold successfulTrackings, failedTrackings.
  induction 1 as [|a l Ha _ IH]; cbn [filter length]; [reflexivity|].
  rewrite (counted_once a Ha). destruct (isSuccessful a); cbn [negb length]; lia.
Qed.

(** X4.  The counters Berhasil and Gagal never miss a record: together they count
    at least the total.  On a collection whose records do not hold payload
    and error together they count every record exactly once, and every
    collection a submission writes is such a collection.  The fresh batch a
    submission starts from counts as failed in full: a record that has not
    been looked up yet is a failed one for the counter. *)
Theorem counters_account_for_every_record (w : World) (toks : list string) :
  (forall l, successfulTrackings l <= length l /\
             length l <= successfulTrackings l + failedTrackings l) /\
  (forall l, Forall notBoth l ->
             successfulTrackings l + failedTrackings l = length l) /\
  Forall (fun l => successfulTrackings l + failedTrackings l = length l)
         (snapshots (newEvents w (exec processResi w))) /\
  (successfulTrackings (map freshItem toks) = 0 /\
   failedTrackings (map freshItem toks) = length toks).
Proof.
  split; [|split; [|split]].
  - intros l. split; [apply filter_length_le | apply counters_cover].
  - apply counters_partition.
  - eapply Forall_impl; [|apply processResi_notBoth].
    intros l. apply counters_partition.
  - unfold successfulTrackings, failedTrackings.
    induction toks as [|t toks [IH1 IH2]]; [split; reflexivity|].
    cbn [map filter isSuccessful isFailed freshItem r_data error orb length].
    rewrite IH2. split; [exact IH1 | reflexivity].
Qed.

(** * Export and display agree *)

Lemma exportable_panel (item : ResiItem) :
  showsResultPanel item = true <-> exists sh, exportable item = Some sh.
Proof.
  unfold showsResultPanel, exportable.
  destruct (r_data item) as [d|].
  - destruct (status d =? 200)%Z; destruct (data d) as [sh|]; cbn;
      split; intros H; eauto; try discriminate; try (destruct H; discriminate).
  - split; [discriminate | intros [sh H]; discriminate].
Qed.

Lemma exportable_latest (item : ResiItem) (sh : Shipment) :
  exportable item = Some sh ->
  latestDesc sh =
  match getLatestHistory item with Some h => h_desc h | None => "-" end.
Proof.
  unfold exportable, getLatestHistory, latestDesc.
  destruct (r_data item) as [d|]; [|discriminate].
  destruct (data d) as [sh'|]; [|discriminate].
  destruct (negb (status d =? 200)%Z); [discriminate|].
  intros H; inversion H; subst. destruct (history sh); reflexivity.
Qed.

Lemma errorCell_not_empty (item : ResiItem) : errorCell item <> EmptyString.
Proof.
  unfold errorCell, Js.orElse. destruct (error item) as [e|]; [|discriminate].
  destruct e; cbn; discriminate.
Qed.

(** X5.  The export and the card of a record agree.  A record is exported as a
    data row exactly when its card shows the result panel, and such a record
    is counted successful; the latest-status cell of the row is the
    description [getLatestHistory] gives the card, or a dash when there is
    none.  In both versions of the export the error-message cell is empty
    exactly on data rows: an error row always carries a message. *)
Theorem export_agrees_with_display (item : ResiItem) :
  (showsResultPanel item = true <-> exists sh, exportable item = Some sh) /\
  (showsResultPanel item = true ->
   isSuccessful item = true /\
   cell "Status Terakhir" (Page.exportRow item) =
     Some (match getLatestHistory item with Some h => h_desc h | None => "-" end) /\
   cell "Status Terakhir" (Component.exportRow item) =
     Some (match getLatestHistory item with Some h => h_desc h | None => "-" end)) /\
  (cell "Pesan Error" (Page.exportRow item) = Some EmptyString <->
   showsResultPanel item = true) /\
  (cell "Pesan Error" (Component.exportRow item) = Some EmptyString <->
   showsResultPanel item = true).
Proof.
  pose proof (exportable_panel item) as Hp.
  pose proof (exportable_latest item) as Hl.
  pose proof (exportable_successful item) as Hs.
  pose proof (errorCell_not_empty item) as He.
  unfold Page.exportRow, Component.exportRow.
  destruct (exportable item) as [sh|].
  - assert (Hshow : showsResultPanel item = true) by (apply Hp; eauto).
    split; [exact Hp|]. split; [|split; cbn; tauto].
    intros _. rewrite (Hl sh eq_refl). repeat split.
    destruct (isSuccessful item); [reflexivity|]. discriminate (Hs eq_refl).
  - assert (Hshow : showsResultPanel item <> true).
    { intros H. apply Hp in H as [sh H]. discriminate. }
    split; [exact Hp|]. split; [intros H; contradiction|].
    split; cbn; (split; [intros H; inversion H; congruence | contradiction]).
Qed.

(** * The panels of a card *)

(** X6.  The result panel and the not-found panel are never shown together.  For
    a record that does not hold payload and error together, at most one of
    the three content panels is shown; none is shown exactly when no
    non-empty error is stored and the payload is absent or is a status-200
    payload without shipment data. *)
Theorem at_most_one_panel (item : ResiItem) :
  (showsResultPanel item = true -> showsNotFoundPanel item = false) /\
  (notBoth item -> panelCount item <= 1) /\
  (panelCount item = 0 <->
   Js.truthyOpt (error item) = false /\
   (r_data item = None \/
    exists d, r_data item = Some d /\ status d = 200%Z /\ data d = None)).
Proof.
  unfold panelCount, showsErrorPanel, showsResultPanel, showsNotFoundPanel, notBoth.
  split; [|split].
  - destruct (r_data item) as [d|]; [|discriminate].
    destruct (status d =? 200)%Z; [reflexivity | discriminate].
  - destruct (r_data item) as [d|].
    + intros [H|H]; [discriminate|]. rewrite H. cbn [Js.truthyOpt].
      destruct (status d =? 200)%Z; destruct (data d); cbn; lia.
    + intros _. destruct (Js.truthyOpt (error item)); cbn; lia.
  - destruct (Js.truthyOpt (error item)).
    { split; [cbn; lia | intros [H _]; discriminate]. }
    destruct (r_data item) as [d|]; [|cbn; split; auto].
    destruct (status d =? 200)%Z eqn:E; destruct (data d) as [sh|] eqn:D; cbn.
    + split; [lia|]. intros [_ [H|(d' & H & _ & H2)]]; [discriminate|].
      inversion H; subst. congruence.
    + split; [|reflexivity]. intros _. split; [reflexivity|].
      right. exists d. apply Z.eqb_eq in E. auto.
    + split; [lia|]. intros [_ [H|(d' & H & H1 & _)]]; [discriminate|].
      inversion H; subst. apply Z.eqb_neq in E. contradiction.
    + split; [lia|]. intros [_ [H|(d' & H & H1 & _)]]; [discriminate|].
      inversion H; subst. apply Z.eqb_neq in E. contradiction.
Qed.

(** * A failed lookup, from the response to the export *)

(** The message of a response that [trackResi] turns down: the HTTP status
    line when the response is not OK, whatever its body is; else the message
    of the body, or the default text when that is empty. *)
Lemma readResponse_failure (http : N) (body : JsonOutcome) :
  responseOk http = false \/
  (exists d, body = JsonValue d /\ status d <> 200 /\ status d <> 201)%Z ->
  readResponse (FetchResponse http body) =
  inl (ThrownError
         (if responseOk http
          then match body with
               | JsonValue d => Js.orElse (message d) "Gagal mengambil data tracking"
               | JsonThrows t => errorMessage t
               end
          else ("HTTP error! status: " ++ Js.showN http)%string)).
Proof.
  unfold readResponse. destruct (responseOk http); cbn [negb]; [|reflexivity].
  intros [H|(d & -> & H1 & H2)]; [discriminate|].
  apply Z.eqb_neq in H1, H2. rewrite H1, H2. reflexivity.
Qed.

Lemma failure_message_not_empty (http : N) (body : JsonOutcome) :
  responseOk http = false \/
  (exists d, body = JsonValue d /\ status d <> 200 /\ status d <> 201)%Z ->
  (if responseOk http
   then match body with
        | JsonValue d => Js.orElse (message d) "Gagal mengambil data tracking"
        | JsonThrows t => errorMessage t
        end
   else ("HTTP error! status: " ++ Js.showN http)%string) <> EmptyString.
Proof.
  destruct (responseOk http); [|discriminate].
  intros [H|(d & -> & _)]; [discriminate|].
  unfold Js.orElse. destruct (message d); cbn; discriminate.
Qed.

(** X7.  When the service answers a refresh with a response that is not OK,
    whatever its body is (a body of the declared shape, or one that cannot
    be read), or with an OK response whose body has a status that is neither
    200 nor 201, the message kept is never empty: it is the HTTP status line
    in the first case, else the message of the body, else the default text.
    Every record carrying the identifier ends with no payload and that
    message; its card shows the error panel and no other, it counts as
    failed, and both exports write that very message in its error cell. *)
Theorem failed_lookup_message_is_shown_and_exported
  (w : World) (r : string) (http : N) (body : JsonOutcome) :
  keyMissing = false ->
  remote (S (length (events w))) (trackUrl r) = FetchResponse http body ->
  responseOk http = false \/
  (exists d, body = JsonValue d /\ status d <> 200 /\ status d <> 201)%Z ->
  let msg := if responseOk http
             then match body with
                  | JsonValue d =>
                      Js.orElse (message d) "Gagal mengambil data tracking"
                  | JsonThrows t => errorMessage t
                  end
             else ("HTTP error! status: " ++ Js.showN http)%string in
  msg <> EmptyString /\
  forall i a,
    nth_error (resiList w) i = Some a ->
    resi a = r ->
    exists b,
      nth_error (resiList (exec (trackSingleResi r) w)) i = Some b /\
      r_data b = None /\ error b = Some msg /\
      showsErrorPanel b = true /\ panelCount b = 1 /\
      isSuccessful b = false /\ isFailed b = true /\
      cell "Pesan Error" (Page.exportRow b) = Some msg /\
      cell "Pesan Error" (Component.exportRow b) = Some msg.
Proof.
  intros K Hrem Hfail msg.
  pose proof (failure_message_not_empty http body Hfail) as Hne. fold msg in Hne.
  split; [exact Hne|]. intros i a Ha Hr.
  destruct (attemptList_nth w r i a Ha) as (b & Hb & Hif).
  apply String.eqb_eq in Hr. rewrite Hr in Hif. destruct Hif as (_ & Hrefl & _).
  unfold attemptOutcome in Hrefl.
  rewrite Hrem, (readResponse_failure http body Hfail) in Hrefl.
  cbn [reflects errorMessage] in Hrefl. fold msg in Hrefl.
  destruct Hrefl as [Hd He].
  exists b. rewrite (trackSingleResi_run r w K). split; [exact Hb|].
  unfold panelCount, showsErrorPanel, showsResultPanel, showsNotFoundPanel,
    isSuccessful, isFailed, Page.exportRow, Component.exportRow, exportable,
    errorCell, Js.orElse.
  rewrite Hd, He. cbn [Js.truthyOpt].
  destruct msg as [|c m]; [contradiction|]. cbn. repeat split; reflexivity.
Qed.

(** * Refreshing again *)

Lemma settledItem_again (res res' : Thrown + TrackingData) (ts ts' : string)
  (item : ResiItem) :
  settledItem res' ts' (settledItem res ts item) = settledItem res' ts' item.
Proof. destruct res, res'; reflexivity. Qed.

(** X8.  Two refreshes of one identifier in a row leave what the second alone
    would leave: each record carrying the identifier is what the second
    lookup makes of the record as it was before both, it reflects the second
    outcome, and the other records are untouched. *)
Theorem refresh_twice_keeps_second_outcome (w : World) (r : string) :
  keyMissing = false ->
  let w1 := exec (trackSingleResi r) w in
  let w2 := exec (trackSingleResi r) w1 in
  forall i a,
    nth_error (resiList w) i = Some a ->
    exists b,
      nth_error (resiList w2) i = Some b /\
      if String.eqb (resi a) r
      then b = settledItem (attemptOutcome w1 r)
                 (stampOf (attemptOutcome w1 r) (length (events w1))) a /\
           reflects (attemptOutcome w1 r) b
      else b = a.
Proof.
  intros K w1 w2 i a Ha.
  assert (H1 : resiList w1 = attemptList w r).
  { unfold w1. now rewrite (trackSingleResi_run r w K). }
  unfold w2. rewrite (trackSingleResi_run r w1 K).
  cbn [afterAttempt resiList]. rewrite attemptList_map, H1, attemptList_map.
  rewrite map_map, nth_error_map, Ha. cbn [option_map].
  eexists. split; [reflexivity|]. cbn beta.
  destruct (String.eqb (resi a) r) eqn:E.
  - destruct (settledItem_facts (attemptOutcome w r)
                (stampOf (attemptOutcome w r) (length (events w))) a)
      as (Hr & _).
    rewrite Hr, E, settledItem_again. split; [reflexivity|].
    apply settledItem_facts.
  - rewrite E. reflexivity.
Qed.

(** X9.  A refresh, with or without the credential, keeps the identifiers of the
    batch and their order, and keeps a batch whose lookups are all over in
    that state: no record is left in progress, none is left with neither
    payload nor error. *)
Theorem refresh_keeps_batch_settled (w : World) (r : string) :
  map resi (resiList (exec (trackSingleResi r) w)) = map resi (resiList w) /\
  (Forall completed (resiList w) ->
   Forall completed (resiList (exec (trackSingleResi r) w))).
Proof.
  destruct keyMissing eqn:K.
  - rewrite (trackSingleResi_rejected r w K). cbn. auto.
  - rewrite (trackSingleResi_run r w K). cbn [afterAttempt resiList].
    split; [apply attemptList_resi|].
    intros H. rewrite attemptList_map. apply Forall_map.
    eapply Forall_impl; [|exact H]. intros a Ha. cbn beta.
    destruct (String.eqb (resi a) r); [apply settledItem_facts | exact Ha].
Qed.

(** * Each record holds the answer to its own request *)

Lemma answered_later (w w' : World) (evs : list Event) (a : ResiItem) :
  events w' = events w ++ evs -> answered w a -> answered w' a.
Proof.
  intros He (n & Hn & Hr & Hl). exists n. repeat split; auto.
  rewrite He, nth_error_app1; [exact Hn|].
  apply nth_error_Some. congruence.
Qed.

Lemma attemptEvents_request (w : World) (r : string) :
  nth_error (events w ++ attemptEvents w r) (S (length (events w)))
  = Some (EvFetch (trackUrl r)).
Proof.
  rewrite nth_error_app2 by lia.
  replace (S (length (events w)) - length (events w)) with 1 by lia.
  reflexivity.
Qed.

Lemma settledItem_answered (w : World) (a : ResiItem) :
  answered (afterAttempt w (resi a))
    (settledItem (attemptOutcome w (resi a))
       (stampOf (attemptOutcome w (resi a)) (length (events w))) a).
Proof.
  destruct (settledItem_facts (attemptOutcome w (resi a))
              (stampOf (attemptOutcome w (resi a)) (length (events w))) a)
    as (Hr & Hrefl & _).
  exists (S (length (events w))). rewrite Hr. repeat split.
  - apply attemptEvents_request.
  - exact Hrefl.
  - destruct (attemptOutcome w (resi a)); discriminate.
Qed.

Lemma loopWorld_answered (rest : list ResiItem) (w : World) :
  Forall (fun a => In (resi a) (map resi rest) \/ answered w a) (resiList w) ->
  Forall (answered (loopWorld rest w)) (resiList (loopWorld rest w)).
Proof.
  revert w. induction rest as [|item rest IH]; intros w H.
  - cbn. eapply Forall_impl; [|exact H]. cbn. intros a [[]|Ha]. exact Ha.
  - cbn [loopWorld]. apply IH.
    destruct (afterPause_fields rest (afterAttempt w (resi item)))
      as (_ & Pl & _ & Pe).
    rewrite Pl. cbn [afterAttempt resiList]. rewrite attemptList_map.
    apply Forall_map. eapply Forall_impl; [|exact H].
    intros a Ha. cbn beta.
    destruct (String.eqb (resi a) (resi item)) eqn:E.
    + right. apply String.eqb_eq in E.
      eapply answered_later; [exact Pe|].
      rewrite <- E. apply settledItem_answered.
    + apply String.eqb_neq in E. destruct Ha as [[Ha|Ha]|Ha].
      * congruence.
      * left. exact Ha.
      * right. eapply answered_later; [|exact Ha].
        rewrite Pe. cbn [afterAttempt events]. rewrite <- app_assoc. reflexivity.
Qed.

Lemma processResi_answered (w : World) :
  keyMissing = false ->
  parseResi (resiNumbers w) <> [] ->
  Forall (answered (exec processResi w)) (resiList (exec processResi w)).
Proof.
  intros K Hne. rewrite (processResi_run w K Hne).
  set (new := map freshItem (parseResi (resiNumbers w))).
  cbn [finished resiList].
  eapply Forall_impl.
  - intros a Ha. eapply (answered_later _ _ [EvSetIsTracking false]); [|exact Ha].
    reflexivity.
  - apply loopWorld_answered. cbn [started resiList].
    apply Forall_forall. intros a Ha. left. now apply in_map.
Qed.

(** X10.  When an accepted batch has run, every record holds the outcome of a
    request that the log shows for its own identifier, as the service
    answered it at that moment, and the date at which it was stored: a
    record never ends with the answer to another identifier's request, and a
    failure of one lookup leaves the others' results in place. *)
Theorem batch_records_hold_their_own_answers (w : World) :
  keyMissing = false ->
  parseResi (resiNumbers w) <> [] ->
  Forall (answered (exec processResi w)) (resiList (exec processResi w)).
Proof. exact (processResi_answered w). Qed.

(** * Which payloads are stored *)

Lemma readResponse_success (resp : FetchOutcome) (d : TrackingData) :
  readResponse resp = inr d <->
  exists http,
    resp = FetchResponse http (JsonValue d) /\
    responseOk http = true /\ (status d = 200 \/ status d = 201)%Z.
Proof.
  split.
  - unfold readResponse. destruct resp as [t|http body]; [discriminate|].
    destruct (responseOk http) eqn:Hok; cbn [negb]; [|discriminate].
    destruct body as [d'|t]; [|discriminate].
    destruct (status d' =? 200)%Z eqn:E1; destruct (status d' =? 201)%Z eqn:E2;
      cbn [negb andb]; intros H; inversion H; subst;
      exists http; rewrite ?Z.eqb_eq in *; auto.
  - intros (http & -> & Hok & Hs). now apply readResponse_accepts.
Qed.

(** X11.  [trackResi] returns a payload exactly when the response is OK, its body
    is read, and the status in the body is 200 or 201.  So every payload a
    finished batch holds has status 200 or 201, and the not-found panel of a
    card, which asks for a payload whose status is not 200, is shown for
    status 201 and for nothing else: an identifier the service does not know
    ends as an error, never in that panel. *)
Theorem stored_payloads_have_status_200_or_201 (w : World) :
  (forall resp d,
     readResponse resp = inr d <->
     exists http,
       resp = FetchResponse http (JsonValue d) /\
       responseOk http = true /\ (status d = 200 \/ status d = 201)%Z) /\
  (keyMissing = false ->
   parseResi (resiNumbers w) <> [] ->
   Forall (fun b =>
             (forall d, r_data b = Some d -> (status d = 200 \/ status d = 201)%Z) /\
             (showsNotFoundPanel b = true ->
              exists d, r_data b = Some d /\ status d = 201%Z))
          (resiList (exec processResi w))).
Proof.
  split; [exact readResponse_success|].
  intros K Hne. eapply Forall_impl; [|exact (processResi_answered w K Hne)].
  intros b (n & _ & Hrefl & _).
  assert (Hst : forall d, r_data b = Some d -> (status d = 200 \/ status d = 201)%Z).
  { intros d Hd.
    destruct (readResponse (remote n (trackUrl (resi b)))) as [t|d'] eqn:R;
      cbn [reflects] in Hrefl; destruct Hrefl as [Hd' _]; [congruence|].
    assert (d' = d) by congruence. subst d'.
    apply readResponse_success in R as (http & _ & _ & Hs). exact Hs. }
  split; [exact Hst|].
  unfold showsNotFoundPanel. destruct (r_data b) as [d|]; [|discriminate].
  intros Hnf. apply negb_true_iff, Z.eqb_neq in Hnf.
  exists d. split; [reflexivity|]. destruct (Hst d eq_refl); [contradiction | assumption].
Qed.

(** * Clearing and resubmitting *)

Lemma clearAll_run (w : World) :
  exec clearAll w =
  mkWorld EmptyString [] (isTracking w) (events w ++ [EvSetResiList []]).
Proof. reflexivity. Qed.

(** X12.  [clearAll] empties the batch and the text and leaves the flag alone.
    After it the export has no row and a submission is turned down for want
    of input.  It does not stop a running batch: the turns of the loop that
    remain still issue their requests, one per remaining record and in
    order, find no record to store the outcomes in, and leave the batch
    empty. *)
Theorem clearAll_empties_but_does_not_cancel (w : World) (rest : list ResiItem) :
  let w' := exec clearAll w in
  resiList w' = [] /\ resiNumbers w' = EmptyString /\
  isTracking w' = isTracking w /\
  Page.exportToExcel (resiList w') = [] /\
  Component.exportToExcel (resiList w') = [] /\
  exec processResi w' = alerted w' "Silakan masukkan nomor resi" /\
  (keyMissing = false ->
   resiList (exec (batchLoop rest) w') = [] /\
   fetches (newEvents w' (exec (batchLoop rest) w')) =
     map trackUrl (map resi rest) /\
   isTracking (exec (batchLoop rest) w') = isTracking w).
Proof.
  intros w'. unfold w'. rewrite clearAll_run. cbn [resiList resiNumbers isTracking].
  repeat split.
  - apply (map_eq_nil resi). unfold exec. rewrite (batchLoop_run _ _ H). cbn [snd].
    rewrite loopWorld_resi. reflexivity.
  - unfold exec. rewrite (batchLoop_run _ _ H). cbn [snd].
    destruct (loopWorld_log rest
                (mkWorld EmptyString [] (isTracking w)
                         (events w ++ [EvSetResiList []])))
      as (evs & He & Hp & _).
    rewrite (newEvents_app _ _ evs He), <- fetches_pacing, Hp.
    apply fetches_schedule.
  - unfold exec. rewrite (batchLoop_run _ _ H). cbn [snd].
    destruct (loopWorld_log rest
                (mkWorld EmptyString [] (isTracking w)
                         (events w ++ [EvSetResiList []])))
      as (_ & _ & _ & _ & _ & Ht).
    exact Ht.
Qed.

(** X13.  An accepted submission discards the batch it finds: what it leaves, the
    records and the whole log, depends on the text, on the log so far and on
    the answers of the service only, not on the records nor on the flag of the
    state it starts from. *)
Theorem submission_discards_previous_batch (w1 w2 : World) :
  keyMissing = false ->
  parseResi (resiNumbers w1) <> [] ->
  resiNumbers w1 = resiNumbers w2 ->
  events w1 = events w2 ->
  exec processResi w1 = exec processResi w2.
Proof.
  intros K Hne Hn He.
  assert (Hne2 : parseResi (resiNumbers w2) <> []) by (rewrite <- Hn; exact Hne).
  rewrite (processResi_run w1 K Hne), (processResi_run w2 K Hne2).
  unfold started. rewrite Hn, He. reflexivity.
Qed.

(** * The name of the exported file *)

Lemma beforeT_date (d rest : string) :
  Forall (fun c => c <> "T"%char) (list_ascii_of_string d) ->
  beforeT (d ++ String "T"%char rest) = d.
Proof.
  induction d as [|c d IH]; cbn [list_ascii_of_string append beforeT]; intros H.
  - reflexivity.
  - inversion H as [|? ? Hc Hd]; subst.
    apply Ascii.eqb_neq in Hc. rewrite Hc, (IH Hd). reflexivity.
Qed.

(** X14.  The exported file is named after the date part of the clock reading:
    for a reading made of a date free of the letter T, a T and a time, the
    name is tracking-pos-, the date, .xlsx. *)
Theorem export_file_named_by_date (d rest : string) :
  Forall (fun c => c <> "T"%char) (list_ascii_of_string d) ->
  exportFileName (d ++ "T" ++ rest) = ("tracking-pos-" ++ d ++ ".xlsx")%string.
Proof.
  intros H. unfold exportFileName.
  change ("T" ++ rest)%string with (String "T"%char rest).
  now rewrite (beforeT_date d rest H).
Qed.

End Tracker.

(** * The operations on the sample environment *)

Example parse_scenario : parseResi scenarioText = ["P1"; "P2"; "P3"].
Proof. reflexivity. Qed.

Example split_runs : Js.split ",a,,b," = [""; "a"; "b"; ""].
Proof. reflexivity. Qed.

Example split_empty : Js.split "" = [""].
Proof. reflexivity. Qed.

Example parse_filters :
  parseResi ("P,  Px ,Q1,p2, P 3 ," ++ Js.nl ++ Js.nl ++ "P1") =
  ["P"; "Px"; "P 3"; "P1"].
Proof. reflexivity. Qed.

(** The scenario of a lookup answered 404 "not found": the record ends with
    no payload and that message. *)
Example not_found_scenario :
  nth_error
    (resiList (exec (processResi sampleKey sampleRemote sampleClock) scenarioWorld)) 1
  = Some (mkResiItem "P2" None false (Some "not found")
                     (Some "2024-01-03T00:00:00.000Z")).
Proof. reflexivity. Qed.

Lemma C1_submit_witness :
  keyMissing sampleKey = false /\
  map resi (resiList (exec (processResi sampleKey sampleRemote sampleClock)
                           scenarioWorld))
  = ["P1"; "P2"; "P3"].
Proof.
  split; [reflexivity|].
  destruct (C1_submit_one_record_per_token sampleKey sampleRemote sampleClock
              scenarioWorld eq_refl) as (_ & _ & H & _).
  apply H. vm_compute. discriminate.
Defined.


Lemma C3_pacing_witness :
  keyMissing sampleKey = false /\
  parseResi (resiNumbers scenarioWorld) <> [] /\
  NoDup (parseResi (resiNumbers scenarioWorld)) /\
  pacing (newEvents scenarioWorld
            (exec (processResi sampleKey sampleRemote sampleClock) scenarioWorld))
  = [EvFetch "https://api.binderbyte.com/v1/track?api_key=KEY&courier=pos&awb=P1";
     EvDelay 1000;
     EvFetch "https://api.binderbyte.com/v1/track?api_key=KEY&courier=pos&awb=P2";
     EvDelay 1000;
     EvFetch "https://api.binderbyte.com/v1/track?api_key=KEY&courier=pos&awb=P3"] /\
  Forall (fun s => length (inProgress s) <= 1)
    (snapshots
       (newEvents scenarioWorld
          (exec (processResi sampleKey sampleRemote sampleClock) scenarioWorld))).
Proof.
  assert (Hne : parseResi (resiNumbers scenarioWorld) <> [])
    by (vm_compute; discriminate).
  assert (Hnd : NoDup (parseResi (resiNumbers scenarioWorld))).
  { change (NoDup ["P1"; "P2"; "P3"]).
    repeat constructor; cbn; intuition discriminate. }
  split; [reflexivity|]. split; [exact Hne|]. split; [exact Hnd|].
  destruct (C3_sequential_pacing sampleKey sampleRemote sampleClock
              scenarioWorld eq_refl Hne) as (Hp & _ & _ & _ & Hone & _).
  split; [exact Hp | exact (Hone Hnd)].
Defined.

(** The claim C3 as the specification words it fails on a batch that repeats
    an identifier: both records are in progress at once. *)
Lemma C3_at_most_one_counterexample :
  ~ Forall (fun s => length (inProgress s) <= 1)
      (snapshots
         (newEvents duplicateWorld
            (exec (processResi sampleKey sampleRemote sampleClock) duplicateWorld))).
Proof.
  intros H. vm_compute in H.
  inversion H as [|s0 l0 _ H1]; subst.
  inversion H1 as [|s1 l1 Hs1 _]; subst.
  cbn in Hs1. lia.
Qed.

(** A refresh started while the batch pauses.  The batch P1, P2 has settled
    P1 and waits for its timer; Refresh of P1 is clicked and runs up to its
    request; the timer fires and the loop marks P2.  Two records of distinct
    identifiers are then in progress together: the bound of one record in
    progress is a fact of the batch run that no refresh interleaves with. *)
Example refresh_during_batch_two_in_progress :
  map (fun a => (resi a, loading a))
    (resiList
       (exec (setResiList (markLoading "P2"))
          (exec (refreshStarts sampleKey "P1")
             (afterPause [freshItem "P2"]
                (exec (attempt sampleKey sampleRemote sampleClock "P1")
                   (started (initial "P1,P2" [])
                            (map freshItem (parseResi "P1,P2"))))))))
  = [("P1", true); ("P2", true)].
Proof. reflexivity. Qed.

Lemma C4_rejected_witness :
  (keyMissing None = true \/ parseResi (resiNumbers trackedWorld) = []) /\
  resiList (exec (processResi None sampleRemote sampleClock) trackedWorld)
  = resiList trackedWorld /\
  fetches (newEvents trackedWorld
             (exec (processResi None sampleRemote sampleClock) trackedWorld)) = [].
Proof.
  assert (H : keyMissing None = true \/ parseResi (resiNumbers trackedWorld) = [])
    by (left; reflexivity).
  split; [exact H|].
  destruct (C4_rejected_submit_changes_nothing None sampleRemote sampleClock
              trackedWorld H) as (Hl & _ & _ & Hf & _).
  split; [exact Hl | exact Hf].
Defined.

Lemma C5_duplicates_witness :
  nth_error [freshItem "P1"; freshItem "P2"; freshItem "P1"] 2
  = Some (freshItem "P1") /\
  nth_error (markLoading "P1" [freshItem "P1"; freshItem "P2"; freshItem "P1"]) 2
  = Some (mkResiItem "P1" None true None None) /\
  nth_error (markLoading "P1" [freshItem "P1"; freshItem "P2"; freshItem "P1"]) 0
  = Some (mkResiItem "P1" None true None None).
Proof.
  split; [reflexivity|]. split.
  - apply (proj1 (C5_mutations_keyed_by_identifier sampleKey sampleRemote
                    sampleClock "P1")
             [freshItem "P1"; freshItem "P2"; freshItem "P1"] 2 (freshItem "P1")).
    reflexivity.
  - apply (proj1 (C5_mutations_keyed_by_identifier sampleKey sampleRemote
                    sampleClock "P1")
             [freshItem "P1"; freshItem "P2"; freshItem "P1"] 0 (freshItem "P1")).
    reflexivity.
Defined.

Lemma C6_exclusive_witness :
  Forall notBoth (resiList trackedWorld) /\
  Forall (Forall notBoth)
    (snapshots
       (newEvents trackedWorld
          (exec (trackSingleResi sampleKey sampleRemote sampleClock "P1")
                trackedWorld))).
Proof.
  assert (H : Forall notBoth (resiList trackedWorld)).
  { constructor; [right; reflexivity|].
    constructor; [left; reflexivity | constructor]. }
  split; [exact H|].
  apply (C6_payload_and_error_exclusive sampleKey sampleRemote sampleClock
           trackedWorld "P1" H).
Defined.

(** The claim C6 as the specification words it fails: the first collection a
    refresh of P1 writes still holds the payload of P1. *)
Lemma C6_clears_both_counterexample :
  ~ (forall s b,
       hd_error
         (snapshots
            (newEvents trackedWorld
               (exec (trackSingleResi sampleKey sampleRemote sampleClock "P1")
                     trackedWorld))) = Some s ->
       In b s -> resi b = "P1" ->
       r_data b = None /\ error b = None).
Proof.
  intros H.
  destruct (H (markLoading "P1" (resiList trackedWorld))
              (mkResiItem "P1" (Some payload200) true None
                          (Some "2024-01-02T00:00:00.000Z")))
    as [Hd _].
  - reflexivity.
  - left. reflexivity.
  - reflexivity.
  - discriminate Hd.
Qed.

Lemma C7_flag_witness :
  keyMissing sampleKey = false /\
  parseResi (resiNumbers scenarioWorld) <> [] /\
  flagWrites (newEvents scenarioWorld
                (exec (processResi sampleKey sampleRemote sampleClock)
                      scenarioWorld))
  = [true; false] /\
  flagWrites (newEvents trackedWorld
                (exec (trackSingleResi sampleKey sampleRemote sampleClock "P1")
                      trackedWorld))
  = [].
Proof.
  assert (Hne : parseResi (resiNumbers scenarioWorld) <> [])
    by (vm_compute; discriminate).
  split; [reflexivity|]. split; [exact Hne|]. split.
  - destruct (proj1 (C7_tracking_flag sampleKey sampleRemote sampleClock
                       scenarioWorld "P1") eq_refl Hne)
      as (mid & Hev & Hf & _).
    rewrite Hev. cbn [flagWrites]. rewrite flagWrites_app, Hf. reflexivity.
  - apply (C7_tracking_flag sampleKey sampleRemote sampleClock trackedWorld "P1").
Defined.

Lemma C8_export_witness :
  length (Page.exportToExcel (resiList trackedWorld)) = 2 /\
  length (Component.exportToExcel (resiList trackedWorld)) = 2 /\
  Page.exportToExcel [] = [].
Proof.
  destruct (C8_export_rows (resiList trackedWorld)) as (Hp & Hc & He & _).
  split; [exact Hp|]. split; [exact Hc | exact He].
Defined.

(** The claim C8 as the specification words it fails on the component: its
    rows do not carry the eight columns. *)
Lemma C8_eight_columns_counterexample :
  ~ Forall (fun row => map fst row = pageColumns)
      (Component.exportToExcel [trackedItem]).
Proof.
  intros H. inversion H as [|row rows Hrow _]; subst.
  discriminate Hrow.
Qed.

Lemma C9_status_201_witness :
  exists b,
    nth_error
      (resiList (exec (trackSingleResi sampleKey sampleRemote sampleClock "P3")
                      freshWorld)) 0 = Some b /\
    r_data b = Some payload201 /\ error b = None /\
    successfulTrackings [b] = 0 /\ failedTrackings [b] = 1 /\
    cell "Status" (Page.exportRow b) = Some "ERROR".
Proof.
  destruct (proj2 (proj2 (C9_status_201_counted_as_failure sampleKey sampleRemote
                            sampleClock freshWorld "P3" 200%N payload201))
              eq_refl eq_refl eq_refl eq_refl 0 (freshItem "P3") eq_refl eq_refl)
    as (b & Hb & Hd & He & _ & Hs & Hf & Hx & _).
  exists b. repeat split; assumption.
Defined.

Lemma C10_unknown_identifier_witness :
  keyMissing sampleKey = false /\
  ~ In "P7" (map resi (resiList trackedWorld)) /\
  fetches (newEvents trackedWorld
             (exec (trackSingleResi sampleKey sampleRemote sampleClock "P7")
                   trackedWorld))
  = ["https://api.binderbyte.com/v1/track?api_key=KEY&courier=pos&awb=P7"] /\
  resiList (exec (trackSingleResi sampleKey sampleRemote sampleClock "P7")
                 trackedWorld)
  = resiList trackedWorld.
Proof.
  assert (Hnot : ~ In "P7" (map resi (resiList trackedWorld))).
  { cbn. intros [H|[H|[]]]; discriminate H. }
  split; [reflexivity|]. split; [exact Hnot|].
  destruct (C10_refresh_of_unknown_identifier sampleKey sampleRemote sampleClock
              trackedWorld "P7" eq_refl Hnot) as (Hf & Hl & _).
  split; [exact Hf | exact Hl].
Defined.

(** * Further runs on the sample environment *)

Lemma batch_identifiers_clean_witness :
  keyMissing sampleKey = false /\
  parseResi (resiNumbers scenarioWorld) <> [] /\
  Forall (fun b => cleanResi (resi b))
    (resiList (exec (processResi sampleKey sampleRemote sampleClock) scenarioWorld)).
Proof.
  assert (Hne : parseResi (resiNumbers scenarioWorld) <> [])
    by (vm_compute; discriminate).
  split; [reflexivity|]. split; [exact Hne|].
  apply (batch_identifiers_clean sampleKey sampleRemote sampleClock scenarioWorld);
    [reflexivity | exact Hne].
Defined.

Lemma copy_all_round_trip_witness :
  keyMissing sampleKey = false /\
  parseResi (resiNumbers scenarioWorld) <> [] /\
  parseResi
    (copyAllText
       (resiList (exec (processResi sampleKey sampleRemote sampleClock)
                       scenarioWorld)))
  = ["P1"; "P2"; "P3"].
Proof.
  assert (Hne : parseResi (resiNumbers scenarioWorld) <> [])
    by (vm_compute; discriminate).
  split; [reflexivity|]. split; [exact Hne|].
  apply (proj2 (copy_all_round_trip sampleKey sampleRemote sampleClock
                  scenarioWorld) eq_refl Hne).
Defined.

Lemma parse_appended_text_witness :
  parseResi ("P1, x,," ++ "," ++ (Js.nl ++ " P2 ")) = ["P1"; "P2"].
Proof.
  rewrite (proj1 (parse_appended_text "P1, x,," (Js.nl ++ " P2 "))).
  reflexivity.
Defined.

Lemma counters_witness :
  Forall notBoth (resiList trackedWorld) /\
  successfulTrackings (resiList trackedWorld)
  + failedTrackings (resiList trackedWorld) = 2.
Proof.
  assert (H : Forall notBoth (resiList trackedWorld)).
  { constructor; [right; reflexivity|].
    constructor; [left; reflexivity | constructor]. }
  split; [exact H|].
  apply (proj1 (proj2 (counters_account_for_every_record sampleKey sampleRemote
                         sampleClock trackedWorld [])) (resiList trackedWorld) H).
Defined.

Lemma export_agrees_with_display_witness :
  showsResultPanel trackedItem = true /\
  cell "Status Terakhir" (Page.exportRow trackedItem) = Some "Diterima oleh Siti" /\
  cell "Status Terakhir" (Component.exportRow trackedItem)
  = Some "Diterima oleh Siti".
Proof.
  split; [reflexivity|].
  destruct (proj1 (proj2 (export_agrees_with_display trackedItem)) eq_refl)
    as (_ & Hp & Hc).
  split; [exact Hp | exact Hc].
Defined.

Lemma at_most_one_panel_witness :
  notBoth trackedItem /\ panelCount trackedItem <= 1.
Proof.
  assert (H : notBoth trackedItem) by (right; reflexivity).
  split; [exact H|].
  apply (proj1 (proj2 (at_most_one_panel trackedItem)) H).
Defined.

Lemma failed_lookup_witness :
  keyMissing sampleKey = false /\
  exists b,
    nth_error
      (resiList
         (exec (trackSingleResi sampleKey
                  (fun _ _ => FetchResponse 404 (JsonThrows ThrownOther))
                  sampleClock "P2")
               trackedWorld)) 1 = Some b /\
    r_data b = None /\
    error b = Some "HTTP error! status: 404" /\
    cell "Pesan Error" (Page.exportRow b) = Some "HTTP error! status: 404" /\
    cell "Pesan Error" (Component.exportRow b) = Some "HTTP error! status: 404".
Proof.
  split; [reflexivity|].
  assert (Hfail : responseOk 404 = false \/
                  (exists d, JsonThrows ThrownOther = JsonValue d /\
                             status d <> 200 /\ status d <> 201)%Z)
    by (left; reflexivity).
  destruct (failed_lookup_message_is_shown_and_exported sampleKey
              (fun _ _ => FetchResponse 404 (JsonThrows ThrownOther))
              sampleClock trackedWorld "P2" 404%N (JsonThrows ThrownOther)
              eq_refl eq_refl Hfail)
    as [_ H].
  destruct (H 1 (freshItem "P2") eq_refl eq_refl)
    as (b & Hb & Hd & He & _ & _ & _ & _ & Hp & Hc).
  exists b. split; [exact Hb|]. split; [exact Hd|]. split; [exact He|].
  split; [exact Hp | exact Hc].
Defined.

(** A second refresh of P2 that the service answers otherwise than the
    first: the record, at index 1, held the message of the first answer and
    ends with the payload of the second and no error. *)
Lemma refresh_twice_witness :
  keyMissing sampleKey = false /\
  nth_error
    (resiList
       (exec (trackSingleResi sampleKey
                (fun n _ => if (n <? 3)%nat
                            then FetchResponse 200 (JsonValue payload404)
                            else FetchResponse 200 (JsonValue payload200))
                sampleClock "P2")
             trackedWorld)) 1
  = Some (mkResiItem "P2" None false (Some "not found")
                     (Some "2024-01-03T00:00:00.000Z")) /\
  exists b,
    nth_error
      (resiList
         (exec (trackSingleResi sampleKey
                  (fun n _ => if (n <? 3)%nat
                              then FetchResponse 200 (JsonValue payload404)
                              else FetchResponse 200 (JsonValue payload200))
                  sampleClock "P2")
            (exec (trackSingleResi sampleKey
                     (fun n _ => if (n <? 3)%nat
                                 then FetchResponse 200 (JsonValue payload404)
                                 else FetchResponse 200 (JsonValue payload200))
                     sampleClock "P2")
                  trackedWorld))) 1 = Some b /\
    r_data b = Some payload200 /\ error b = None /\ loading b = false.
Proof.
  split; [reflexivity|]. split; [reflexivity|].
  destruct (refresh_twice_keeps_second_outcome sampleKey
              (fun n _ => if (n <? 3)%nat
                          then FetchResponse 200 (JsonValue payload404)
                          else FetchResponse 200 (JsonValue payload200))
              sampleClock trackedWorld "P2" eq_refl 1 (freshItem "P2") eq_refl)
    as (b & Hb & Hif).
  exists b. split; [exact Hb|].
  cbn in Hif. destruct Hif as [-> _]. cbn. auto.
Defined.

Lemma refresh_keeps_batch_settled_witness :
  Forall completed [trackedItem] /\
  Forall completed
    (resiList (exec (trackSingleResi sampleKey sampleRemote sampleClock "P1")
                    (initial "" [trackedItem]))).
Proof.
  assert (H : Forall completed [trackedItem]).
  { constructor; [|constructor]. split; [|reflexivity].
    left. exists payload200. split; reflexivity. }
  split; [exact H|].
  apply (proj2 (refresh_keeps_batch_settled sampleKey sampleRemote sampleClock
                  (initial "" [trackedItem]) "P1") H).
Defined.

Lemma batch_answers_witness :
  keyMissing sampleKey = false /\
  parseResi (resiNumbers scenarioWorld) <> [] /\
  Forall (answered sampleKey sampleRemote
            (exec (processResi sampleKey sampleRemote sampleClock) scenarioWorld))
    (resiList (exec (processResi sampleKey sampleRemote sampleClock) scenarioWorld)).
Proof.
  assert (Hne : parseResi (resiNumbers scenarioWorld) <> [])
    by (vm_compute; discriminate).
  split; [reflexivity|]. split; [exact Hne|].
  apply (batch_records_hold_their_own_answers sampleKey sampleRemote sampleClock
           scenarioWorld eq_refl Hne).
Defined.

Lemma stored_payloads_witness :
  keyMissing sampleKey = false /\
  parseResi (resiNumbers scenarioWorld) <> [] /\
  Forall (fun b =>
            (forall d, r_data b = Some d -> (status d = 200 \/ status d = 201)%Z) /\
            (showsNotFoundPanel b = true ->
             exists d, r_data b = Some d /\ status d = 201%Z))
    (resiList (exec (processResi sampleKey sampleRemote sampleClock) scenarioWorld)).
Proof.
  assert (Hne : parseResi (resiNumbers scenarioWorld) <> [])
    by (vm_compute; discriminate).
  split; [reflexivity|]. split; [exact Hne|].
  apply (proj2 (stored_payloads_have_status_200_or_201 sampleKey sampleRemote
                  sampleClock scenarioWorld) eq_refl Hne).
Defined.

Lemma clearAll_witness :
  keyMissing sampleKey = false /\
  resiList (exec (batchLoop sampleKey sampleRemote sampleClock
                    [freshItem "P2"; freshItem "P3"])
                 (exec clearAll trackedWorld)) = [] /\
  fetches
    (newEvents (exec clearAll trackedWorld)
       (exec (batchLoop sampleKey sampleRemote sampleClock
                [freshItem "P2"; freshItem "P3"])
             (exec clearAll trackedWorld)))
  = ["https://api.binderbyte.com/v1/track?api_key=KEY&courier=pos&awb=P2";
     "https://api.binderbyte.com/v1/track?api_key=KEY&courier=pos&awb=P3"].
Proof.
  split; [reflexivity|].
  destruct (clearAll_empties_but_does_not_cancel sampleKey sampleRemote sampleClock
              trackedWorld [freshItem "P2"; freshItem "P3"])
    as (_ & _ & _ & _ & _ & _ & H).
  destruct (H eq_refl) as (Hl & Hf & _).
  split; [exact Hl | exact Hf].
Defined.

Lemma submission_discards_witness :
  keyMissing sampleKey = false /\
  parseResi (resiNumbers (initial scenarioText [trackedItem])) <> [] /\
  exec (processResi sampleKey sampleRemote sampleClock)
       (initial scenarioText [trackedItem])
  = exec (processResi sampleKey sampleRemote sampleClock) scenarioWorld.
Proof.
  assert (Hne : parseResi (resiNumbers (initial scenarioText [trackedItem])) <> [])
    by (vm_compute; discriminate).
  split; [reflexivity|]. split; [exact Hne|].
  apply (submission_discards_previous_batch sampleKey sampleRemote sampleClock
           (initial scenarioText [trackedItem]) scenarioWorld eq_refl Hne
           eq_refl eq_refl).
Defined.

Lemma export_file_name_witness :
  Forall (fun c => c <> "T"%char) (list_ascii_of_string "2024-01-03") /\
  exportFileName (sampleClock 0) = "tracking-pos-2024-01-03.xlsx".
Proof.
  assert (H : Forall (fun c => c <> "T"%char) (list_ascii_of_string "2024-01-03")).
  { cbn. repeat constructor; discriminate. }
  split; [exact H|].
  apply (export_file_named_by_date "2024-01-03" "00:00:00.000Z" H).
Defined.
